(** * Identity resolution, access control and fleet aggregation

    A shallow embedding of the fuel-log application:

    - [Js]: the JavaScript string and array primitives the code relies on
      ([toUpperCase], [trim], [split(',')], [includes], [find],
      the regular expression [/^\d{4}$/], the stable [Array.prototype.sort]);
    - [Store]: the two tables behind the hosted platform, [auth.users]
      (credentials) and [app_users] (the account directory);
    - [Policy]: the write gate of [FuelForm.handleSubmit];
    - [Login]: [LoginForm.handleSignIn], the client-side passcode sign-in;
    - [AdminUsers]: the [create-user] branch of the [admin-users] edge function;
    - [CreateUserHandler]: the same branch on any JSON body, with a
      credential store that may refuse what it is asked;
    - [PasscodeAuth]: the [auth-with-passcode] edge function;
    - [SortFacts]: what a stable sort does under a consistent comparator;
    - [Aggregator]: [AdminPanel.groupRecordsByPlate], for any consistent
      [localeCompare];
    - [LoginFacts], [Keypad]: the outcomes of the sign-in form and its keypad;
    - [AdminEndpoint], [Lifecycle]: the administrator gate of [admin-users]
      and its [reset-password] and [delete-user] actions;
    - [AuthProvider]: [fetchAppUser], the provisioning at first sign-in;
    - [Journeys]: how creation, deletion and provisioning meet the sign-in;
    - [PasscodeFacts], [AggregatorFacts], [CreateFacts]: further properties
      of the functions above;
    - [FuelForm]: the whole of [handleSubmit];
    - [App]: which screen [AppContent] and the admin panel show.

    Strings are sequences of ASCII characters.  Row identifiers (uuids) are
    natural numbers.  Timestamps set by the database ([created_at]) are not
    part of any decision the code takes and are left out of the rows. *)

From Stdlib Require Import List String Ascii Bool Arith ZArith Lia.
From Stdlib Require Import Permutation Sorted.
From Stdlib Require Import Floats.PrimFloat.
Import ListNotations.

Local Open Scope string_scope.
Local Open Scope list_scope.
Local Open Scope nat_scope.

(* ================================================================== *)
(** ** JavaScript primitives *)
(* ================================================================== *)

Module Js.

(** [c.toUpperCase()] on one ASCII character: [a]-[z] go to [A]-[Z]. *)
Definition upper_ascii (c : ascii) : ascii :=
  let n := nat_of_ascii c in
  if (97 <=? n) && (n <=? 122) then ascii_of_nat (n - 32) else c.

(** [s.toUpperCase()]. *)
Fixpoint toUpperCase (s : string) : string :=
  match s with
  | EmptyString => EmptyString
  | String c r => String (upper_ascii c) (toUpperCase r)
  end.

(** [c.toLowerCase()] on one ASCII character. *)
Definition lower_ascii (c : ascii) : ascii :=
  let n := nat_of_ascii c in
  if (65 <=? n) && (n <=? 90) then ascii_of_nat (n + 32) else c.

(** [s.toLowerCase()]. *)
Fixpoint toLowerCase (s : string) : string :=
  match s with
  | EmptyString => EmptyString
  | String c r => String (lower_ascii c) (toLowerCase r)
  end.

(** The ASCII white space [trim] strips: TAB, LF, VT, FF, CR and space. *)
Definition is_white (c : ascii) : bool :=
  let n := nat_of_ascii c in
  ((9 <=? n) && (n <=? 13)) || (n =? 32).

Fixpoint trimStart (s : string) : string :=
  match s with
  | EmptyString => EmptyString
  | String c r => if is_white c then trimStart r else s
  end.

Fixpoint trimEnd (s : string) : string :=
  match s with
  | EmptyString => EmptyString
  | String c r =>
      match trimEnd r with
      | EmptyString => if is_white c then EmptyString else String c EmptyString
      | r' => String c r'
      end
  end.

(** [s.trim()]. *)
Definition trim (s : string) : string := trimEnd (trimStart s).

Definition comma : ascii := ","%char.

(** [s.split(',')]: never empty, [''.split(',')] is [['']]. *)
Fixpoint split_comma (s : string) : list string :=
  match s with
  | EmptyString => [EmptyString]
  | String c r =>
      if Ascii.eqb c comma then EmptyString :: split_comma r
      else match split_comma r with
           | h :: t => String c h :: t
           | [] => [String c EmptyString]
           end
  end.

(** [arr.includes(x)] on an array of strings. *)
Definition includes (x : string) (arr : list string) : bool :=
  existsb (String.eqb x) arr.

(** [arr.find(p)]. *)
Fixpoint find {A : Type} (p : A -> bool) (arr : list A) : option A :=
  match arr with
  | [] => None
  | x :: r => if p x then Some x else find p r
  end.

Definition is_digit (c : ascii) : bool :=
  let n := nat_of_ascii c in (48 <=? n) && (n <=? 57).

(** [/^\d{4}$/.test(s)]. *)
Definition test_4digits (s : string) : bool :=
  match s with
  | String a (String b (String c (String d EmptyString))) =>
      is_digit a && is_digit b && is_digit c && is_digit d
  | _ => false
  end.

(** [Array.prototype.sort(cmp)] is a stable sort; [cmp a b] is the sign of
    the comparator's result.  The array is sorted by stable insertion: an
    element stays in front of the later elements it does not exceed. *)
Section Sort.
Context {A : Type} (cmp : A -> A -> comparison).

Fixpoint sort_insert (x : A) (l : list A) : list A :=
  match l with
  | [] => [x]
  | y :: r =>
      match cmp x y with
      | Gt => y :: sort_insert x r
      | _ => x :: l
      end
  end.

Fixpoint sort (l : list A) : list A :=
  match l with
  | [] => []
  | x :: r => sort_insert x (sort r)
  end.

End Sort.

End Js.

(* ================================================================== *)
(** ** Facts about lists *)
(* ================================================================== *)

Module ListFacts.

Lemma filter_all {A : Type} (p : A -> bool) (l : list A) :
  (forall x, In x l -> p x = true) -> filter p l = l.
Proof.
  induction l as [|x r IH]; intros H; simpl; [reflexivity|].
  rewrite (H x (or_introl eq_refl)). f_equal. apply IH. intros y Hy. apply H. now right.
Qed.

Lemma filter_none {A : Type} (p : A -> bool) (l : list A) :
  (forall x, In x l -> p x = false) -> filter p l = [].
Proof.
  induction l as [|x r IH]; intros H; simpl; [reflexivity|].
  rewrite (H x (or_introl eq_refl)). apply IH. intros y Hy. apply H. now right.
Qed.

Lemma filter_permutation {A : Type} (p : A -> bool) (l l' : list A) :
  Permutation l l' -> Permutation (filter p l) (filter p l').
Proof.
  induction 1 as [|x l l' P IH|x y l|l l' l'' P1 IH1 P2 IH2]; simpl.
  - constructor.
  - destruct (p x); [now constructor | exact IH].
  - destruct (p x), (p y); try apply Permutation_refl. apply perm_swap.
  - now apply perm_trans with (filter p l').
Qed.

End ListFacts.

(* ================================================================== *)
(** ** The stores *)
(* ================================================================== *)

Module Store.

Definition uuid := nat.

Inductive Role := admin | user.

Definition Role_eqb (a b : Role) : bool :=
  match a, b with
  | admin, admin | user, user => true
  | _, _ => false
  end.

(** A row of [app_users] (type [AppUser]). *)
Record AppUser := mkAppUser {
  id : uuid;
  email : string;
  full_name : string;
  role : Role;
  assigned_vehicles : list string;
  created_by : option uuid
}.

(** A row of [auth.users]: the identity, its e-mail and its secret. *)
Record AuthUser := mkAuthUser {
  auth_id : uuid;
  auth_email : string;
  auth_password : string
}.

(** The backend: both tables, rows in insertion order. *)
Record Db := mkDb {
  auth_users : list AuthUser;
  app_users : list AppUser
}.

(** [supabase.auth.signInWithPassword({email, password})]: succeeds when the
    credential stored for [email] carries [password]. *)
Definition signInWithPassword (db : Db) (em pw : string) : bool :=
  existsb (fun a => String.eqb (auth_email a) em && String.eqb (auth_password a) pw)
          (auth_users db).

(** [.from('app_users').select(...).eq('role', r)]. *)
Definition select_by_role (db : Db) (r : Role) : list AppUser :=
  filter (fun u => Role_eqb (role u) r) (app_users db).

End Store.

(* ================================================================== *)
(** ** Authorization of record writes: [FuelForm.handleSubmit] *)
(* ================================================================== *)

Module Policy.
Import Store.

Inductive SubmitGate :=
| NotAuthorized (plateUpper : string)
| Proceeds.

(** The guard that opens [handleSubmit]; [appUser] may be [null]. *)
Definition handleSubmit_gate (appUser : option AppUser) (plateNumber : string) : SubmitGate :=
  match appUser with
  | Some u =>
      if 0 <? List.length (assigned_vehicles u) then
        let plateUpper := Js.toUpperCase plateNumber in
        if negb (Js.includes plateUpper (assigned_vehicles u))
        then NotAuthorized plateUpper
        else Proceeds
      else Proceeds
  | None => Proceeds
  end.

(** [canWriteRecord(account, v)]: the submission is let through. *)
Definition canWriteRecord (account : AppUser) (v : string) : bool :=
  match handleSubmit_gate (Some account) v with
  | Proceeds => true
  | NotAuthorized _ => false
  end.

Lemma includes_In (x : string) (arr : list string) :
  Js.includes x arr = true <-> In x arr.
Proof.
  unfold Js.includes. rewrite existsb_exists. split.
  - intros [y [Hy Heq]]. apply String.eqb_eq in Heq. now subst.
  - intros H. exists x. split; [assumption | apply String.eqb_refl].
Qed.

Lemma canWriteRecord_unfold (a : AppUser) (v : string) :
  canWriteRecord a v =
  match assigned_vehicles a with
  | [] => true
  | _ :: _ => Js.includes (Js.toUpperCase v) (assigned_vehicles a)
  end.
Proof.
  unfold canWriteRecord, handleSubmit_gate.
  destruct (assigned_vehicles a) as [|p ps]; [reflexivity|].
  cbn [List.length Nat.ltb Nat.leb].
  now destruct (Js.includes _ _).
Qed.

(** An administrator scoped to one plate and refused another. *)
Definition scoped_admin : AppUser :=
  mkAppUser 1 "admin@admin.com" "System Administrator" admin ["AA-1"] None.

(** C2, as stated, fails: the gate never reads [role], so an administrator
    whose assignment is non-empty and lacks the plate is refused. *)
Lemma C2_admin_with_assignment_refused :
  role scoped_admin = admin /\
  assigned_vehicles scoped_admin <> [] /\
  ~ In (Js.toUpperCase "bb-2") (assigned_vehicles scoped_admin) /\
  handleSubmit_gate (Some scoped_admin) "bb-2" = NotAuthorized "BB-2" /\
  canWriteRecord scoped_admin "bb-2" = false.
Proof.
  repeat split; try reflexivity; try discriminate.
  intros [H | []]. discriminate H.
Qed.

(** C2 amended: the write gate is the same for every role.  An account with
    an empty assignment, administrators included, may write for every
    vehicle; one with a non-empty assignment may write exactly for the
    plates whose uppercase form is assigned. *)
Theorem C2_canWriteRecord_ignores_role :
  forall (a : AppUser) (v : string),
    (assigned_vehicles a = [] -> canWriteRecord a v = true) /\
    (assigned_vehicles a <> [] ->
       (canWriteRecord a v = true <-> In (Js.toUpperCase v) (assigned_vehicles a))) /\
    (forall b : AppUser,
       assigned_vehicles b = assigned_vehicles a ->
       canWriteRecord b v = canWriteRecord a v).
Proof.
  intros a v. repeat split.
  - intros E. rewrite canWriteRecord_unfold, E. reflexivity.
  - rewrite canWriteRecord_unfold.
    destruct (assigned_vehicles a) as [|p ps] eqn:E; [congruence|].
    apply includes_In.
  - rewrite canWriteRecord_unfold.
    destruct (assigned_vehicles a) as [|p ps] eqn:E; [congruence|].
    apply includes_In.
  - intros b Hb. rewrite !canWriteRecord_unfold, Hb. reflexivity.
Qed.

Lemma C2_canWriteRecord_ignores_role_witness :
  canWriteRecord (mkAppUser 1 "admin@admin.com" "System Administrator" admin [] None) "bb-2"
  = true /\
  canWriteRecord scoped_admin "aa-1" = true.
Proof.
  destruct (C2_canWriteRecord_ignores_role
              (mkAppUser 1 "admin@admin.com" "System Administrator" admin [] None) "bb-2")
    as [Hempty _].
  destruct (C2_canWriteRecord_ignores_role scoped_admin "aa-1") as [_ [Hscoped _]].
  split.
  - apply Hempty. reflexivity.
  - apply Hscoped; [discriminate | simpl; auto].
Defined.

(** C5: for a role=user account, an empty assignment permits every vehicle
    and a non-empty one permits exactly the plates whose uppercase form is
    assigned. *)
Theorem C5_user_write_scope :
  forall (a : AppUser) (v : string),
    role a = user ->
    (assigned_vehicles a = [] -> canWriteRecord a v = true) /\
    (assigned_vehicles a <> [] ->
       (canWriteRecord a v = true <-> In (Js.toUpperCase v) (assigned_vehicles a))).
Proof.
  intros a v _. rewrite canWriteRecord_unfold.
  destruct (assigned_vehicles a) as [|p ps] eqn:E.
  - split; [reflexivity | congruence].
  - split; [discriminate | intros _; apply includes_In].
Qed.

Definition legacy_driver : AppUser :=
  mkAppUser 7 "old@fleet.et" "Old Driver" user [] None.

Definition scoped_driver : AppUser :=
  mkAppUser 8 "abebe@fleet.et" "Abebe" user ["AA-1"; "ET-77"] None.

Lemma C5_user_write_scope_witness :
  canWriteRecord legacy_driver "zz-9" = true /\
  canWriteRecord scoped_driver "et-77" = true /\
  canWriteRecord scoped_driver "zz-9" = false.
Proof.
  destruct (C5_user_write_scope legacy_driver "zz-9" eq_refl) as [Hempty _].
  destruct (C5_user_write_scope scoped_driver "et-77" eq_refl) as [_ Hscoped].
  split; [apply Hempty; reflexivity | split].
  - apply Hscoped; [discriminate | simpl; auto].
  - reflexivity.
Defined.

End Policy.

(* ================================================================== *)
(** ** Passcode sign-in on the client: [LoginForm.handleSignIn] *)
(* ================================================================== *)

Module Login.
Import Store.

(** What the form shows when [handleSignIn] returns. *)
Inductive Outcome :=
| PlateRequired                              (* 'Please enter your vehicle plate number.' *)
| PasscodeLength                             (* 'Please enter a 4-digit passcode.' *)
| DatabaseError (msg : string)               (* 'Database error: ...' *)
| NoUserAccounts                             (* 'No user accounts found. ...' *)
| VehicleNotAssigned (plateUpper : string)   (* 'Vehicle ... is not assigned to any user. ...' *)
| InvalidPasscode                            (* 'Invalid passcode. Please try again.' *)
| Welcome (u : AppUser) (plateUpper : string).

(** The outcome, whether [setEnteredCode('')] ran, and the calls made to
    [signIn(email, code)], in order. *)
Record Result := mkResult {
  outcome : Outcome;
  code_cleared : bool;
  signIn_calls : list (string * string)
}.

(** The predicate handed to [users.find]; a [null] column reads as no
    assignment. *)
Definition has_plate (plateUpper : string) (u : AppUser) : bool :=
  Js.includes plateUpper (assigned_vehicles u).

(** The candidate set of a plate: the role=user accounts assigned to it, in
    directory order. *)
Definition candidates (db : Db) (plateUpper : string) : list AppUser :=
  filter (has_plate plateUpper) (select_by_role db user).

(** [handleSignIn], from the component state [plateNumber], [enteredCode];
    [fetchError] is the error of the directory query, if any. *)
Definition handleSignIn (db : Db) (fetchError : option string)
           (plateNumber enteredCode : string) : Result :=
  if String.eqb (Js.trim plateNumber) "" then mkResult PlateRequired false []
  else if negb (String.length enteredCode =? 4) then mkResult PasscodeLength false []
  else
    let plateUpper := Js.toUpperCase (Js.trim plateNumber) in
    match fetchError with
    | Some msg => mkResult (DatabaseError msg) true []
    | None =>
        let users := select_by_role db user in
        match users with
        | [] => mkResult NoUserAccounts true []
        | _ :: _ =>
            match Js.find (has_plate plateUpper) users with
            | None => mkResult (VehicleNotAssigned plateUpper) true []
            | Some matchedUser =>
                let calls := [(email matchedUser, enteredCode)] in
                if signInWithPassword db (email matchedUser) enteredCode
                then mkResult (Welcome matchedUser plateUpper) false calls
                else mkResult InvalidPasscode true calls
            end
        end
    end.

(** A login attempt the form accepts: a plate that is not blank and a code
    of four characters. *)
Definition well_formed (plateNumber enteredCode : string) : Prop :=
  Js.trim plateNumber <> "" /\ String.length enteredCode = 4.

Lemma find_filter {A : Type} (p : A -> bool) (l : list A) :
  Js.find p l = hd_error (filter p l).
Proof.
  induction l as [|x r IH]; simpl; [reflexivity|].
  destruct (p x); simpl; auto.
Qed.

Lemma handleSignIn_well_formed (db : Db) (plateNumber enteredCode : string) :
  well_formed plateNumber enteredCode ->
  handleSignIn db None plateNumber enteredCode =
  let plateUpper := Js.toUpperCase (Js.trim plateNumber) in
  match select_by_role db user with
  | [] => mkResult NoUserAccounts true []
  | _ :: _ =>
      match candidates db plateUpper with
      | [] => mkResult (VehicleNotAssigned plateUpper) true []
      | c :: _ =>
          if signInWithPassword db (email c) enteredCode
          then mkResult (Welcome c plateUpper) false [(email c, enteredCode)]
          else mkResult InvalidPasscode true [(email c, enteredCode)]
      end
  end.
Proof.
  intros [Hplate Hcode]. unfold handleSignIn, candidates.
  apply String.eqb_neq in Hplate. rewrite Hplate, Hcode. cbn [Nat.eqb negb].
  cbv zeta. rewrite find_filter.
  destruct (select_by_role db user) as [|u us]; [reflexivity|].
  destruct (filter _ (u :: us)); reflexivity.
Qed.

(** Two drivers share the plate [ABC-123]; the code entered is the second
    driver's. *)
Definition shared_plate_db : Db :=
  mkDb [ mkAuthUser 1 "first@fleet.et" "1111"; mkAuthUser 2 "second@fleet.et" "2222" ]
       [ mkAppUser 1 "first@fleet.et" "First" user ["ABC-123"] None;
         mkAppUser 2 "second@fleet.et" "Second" user ["ABC-123"] None ].

(** C1, as stated, fails: only the first candidate is ever tried, so a code
    that verifies for a later candidate is refused. *)
Lemma C1_later_candidate_never_tried :
  map email (candidates shared_plate_db "ABC-123") = ["first@fleet.et"; "second@fleet.et"] /\
  signInWithPassword shared_plate_db "first@fleet.et" "2222" = false /\
  signInWithPassword shared_plate_db "second@fleet.et" "2222" = true /\
  handleSignIn shared_plate_db None "abc-123" "2222" =
    mkResult InvalidPasscode true [("first@fleet.et", "2222")].
Proof. repeat split. Qed.

(** C1 amended: when the candidate set is not empty, [handleSignIn] verifies
    the code against the first candidate in directory order and against no
    other; it signs that candidate in when the code verifies and otherwise
    reports an invalid passcode and clears the code. *)
Theorem C1_first_candidate_only :
  forall (db : Db) (plateNumber enteredCode : string) (c : AppUser) (rest : list AppUser),
    well_formed plateNumber enteredCode ->
    candidates db (Js.toUpperCase (Js.trim plateNumber)) = c :: rest ->
    handleSignIn db None plateNumber enteredCode =
      if signInWithPassword db (email c) enteredCode
      then mkResult (Welcome c (Js.toUpperCase (Js.trim plateNumber))) false
                    [(email c, enteredCode)]
      else mkResult InvalidPasscode true [(email c, enteredCode)].
Proof.
  intros db plateNumber enteredCode c rest Hwf Hcand.
  rewrite (handleSignIn_well_formed db plateNumber enteredCode Hwf). cbv zeta.
  rewrite Hcand.
  destruct (select_by_role db user) as [|u us] eqn:Hsel; [|reflexivity].
  unfold candidates in Hcand. rewrite Hsel in Hcand. discriminate Hcand.
Qed.

Lemma C1_first_candidate_only_witness :
  handleSignIn shared_plate_db None " abc-123" "1111" =
    mkResult (Welcome (mkAppUser 1 "first@fleet.et" "First" user ["ABC-123"] None) "ABC-123")
             false [("first@fleet.et", "1111")].
Proof.
  apply (C1_first_candidate_only shared_plate_db " abc-123" "1111"
           (mkAppUser 1 "first@fleet.et" "First" user ["ABC-123"] None)
           [mkAppUser 2 "second@fleet.et" "Second" user ["ABC-123"] None]).
  - split; [discriminate | reflexivity].
  - reflexivity.
Defined.

(** A directory that holds the administrator only. *)
Definition admin_only_db : Db :=
  mkDb [ mkAuthUser 1 "admin@admin.com" "s3cret" ]
       [ mkAppUser 1 "admin@admin.com" "System Administrator" admin [] None ].

(** C6, as stated, fails on the error reported: with no role=user account
    at all the form reports that no user accounts exist, not that the
    vehicle is unassigned. *)
Lemma C6_no_user_accounts_error :
  candidates admin_only_db "ABC-123" = [] /\
  handleSignIn admin_only_db None "ABC-123" "0000" = mkResult NoUserAccounts true [].
Proof. split; reflexivity. Qed.

(** C6 amended: when the candidate set is empty no sign-in call is made; the
    attempt fails with [VehicleNotAssigned] when the directory holds some
    role=user account, and with [NoUserAccounts] when it holds none. *)
Theorem C6_empty_candidates_no_verification :
  forall (db : Db) (plateNumber enteredCode : string),
    well_formed plateNumber enteredCode ->
    candidates db (Js.toUpperCase (Js.trim plateNumber)) = [] ->
    signIn_calls (handleSignIn db None plateNumber enteredCode) = [] /\
    outcome (handleSignIn db None plateNumber enteredCode) =
      match select_by_role db user with
      | [] => NoUserAccounts
      | _ :: _ => VehicleNotAssigned (Js.toUpperCase (Js.trim plateNumber))
      end.
Proof.
  intros db plateNumber enteredCode Hwf Hcand.
  rewrite (handleSignIn_well_formed db plateNumber enteredCode Hwf). cbv zeta.
  rewrite Hcand.
  destruct (select_by_role db user); split; reflexivity.
Qed.

Lemma C6_empty_candidates_no_verification_witness :
  signIn_calls (handleSignIn shared_plate_db None "ZZ-9" "0000") = [] /\
  outcome (handleSignIn shared_plate_db None "ZZ-9" "0000") = VehicleNotAssigned "ZZ-9".
Proof.
  apply (C6_empty_candidates_no_verification shared_plate_db "ZZ-9" "0000").
  - split; [discriminate | reflexivity].
  - reflexivity.
Defined.

End Login.

(* ================================================================== *)
(** ** Account creation: the [create-user] branch of [admin-users] *)
(* ================================================================== *)

Module AdminUsers.
Import Store.

(** The JSON body of the request. *)
Record CreateUserRequest := mkRequest {
  req_email : string;
  req_password : string;
  req_fullName : string;
  req_assignedVehicles : string
}.

Inductive Body :=
| ErrorBody (error : string)
| SuccessBody (message : string).

Record Response := mkResponse {
  status : nat;
  body : Body
}.

(** The calls the handler makes to the backend, each with what came back. *)
Inductive Call :=
| SelectByEmail (em : string) (found : bool)
| CreateUser (em pw : string) (result : uuid + string)
| Upsert (row : AppUser) (error : option string)
| DeleteUser (uid : uuid) (error : option string).

(** One run of the handler: the response, the backend it leaves and the
    calls it made, in order. *)
Record Run := mkRun {
  response : Response;
  db_after : Db;
  calls : list Call
}.

(** [.from('app_users').select('id').eq('email', em).single()]: the data is
    the row when exactly one row matches, [null] otherwise. *)
Definition single_by_email (db : Db) (em : string) : option AppUser :=
  match filter (fun u => String.eqb (email u) em) (app_users db) with
  | [u] => Some u
  | _ => None
  end.

(** The identity the platform generates: one no row carries yet. *)
Definition fresh_id (db : Db) : uuid :=
  S (list_max (map auth_id (auth_users db) ++ map id (app_users db))).

(** The trigger [on_auth_user_created]: a new identity gets a directory row
    unless a row already carries its e-mail. *)
Definition handle_new_user (new : AuthUser) (rows : list AppUser) : list AppUser :=
  if existsb (fun u => String.eqb (email u) (auth_email new)) rows then rows
  else rows ++ [mkAppUser (auth_id new) (auth_email new) (auth_email new) user [] None].

(** [auth.admin.createUser({email, password, email_confirm: true})]. *)
Definition createUser (db : Db) (em pw : string) : (AuthUser + string) * Db :=
  if existsb (fun a => String.eqb (auth_email a) em) (auth_users db)
  then (inr "A user with this email address has already been registered", db)
  else
    let new := mkAuthUser (fresh_id db) em pw in
    (inl new, mkDb (auth_users db ++ [new]) (handle_new_user new (app_users db))).

(** [auth.admin.deleteUser(uid)], as the store carries it out; a store
    that refuses is [CreateUserHandler.auth_deleteUser]. *)
Definition deleteUser (db : Db) (uid : uuid) : option string * Db :=
  if existsb (fun a => auth_id a =? uid) (auth_users db)
  then (None, mkDb (filter (fun a => negb (auth_id a =? uid)) (auth_users db)) (app_users db))
  else (Some "User not found", db).

Fixpoint upsert_row (row : AppUser) (rows : list AppUser) : list AppUser :=
  match rows with
  | [] => [row]
  | u :: r => if id u =? id row then row :: r else u :: upsert_row row r
  end.

(** [.from('app_users').upsert([row], {onConflict: 'id'})].  The statement
    fails when the database refuses it: [fault] is the error of a refusal
    the tables do not explain (policy, connection); the [UNIQUE] constraint
    on [email] refuses a second row with the same e-mail. *)
Definition upsert (db : Db) (fault : option string) (row : AppUser) : option string * Db :=
  match fault with
  | Some msg => (Some msg, db)
  | None =>
      if existsb (fun u => String.eqb (email u) (email row) && negb (id u =? id row))
                 (app_users db)
      then (Some "duplicate key value violates unique constraint app_users_email_key", db)
      else (None, mkDb (auth_users db) (upsert_row row (app_users db)))
  end.

(** The parse of the [assignedVehicles] field. *)
Definition vehiclesArray (assignedVehicles : string) : list string :=
  filter (fun v => 0 <? String.length v)
         (map (fun v => Js.toUpperCase (Js.trim v)) (Js.split_comma assignedVehicles)).

Definition success_message (em pw : string) : string :=
  "User created successfully! Login: " ++ em ++ " / Password: " ++ pw.

(** The branch [method === 'POST' && action === 'create-user'], entered
    once the caller (identity [caller]) has passed the administrator gate,
    on a body whose fields are strings and a credential store that carries
    out what it is asked.  [CreateUserHandler.post_create_user] below is
    the branch on any body, with a store that may refuse. *)
Definition create_user (db : Db) (caller : uuid) (fault : option string)
           (req : CreateUserRequest) : Run :=
  if negb (Js.test_4digits (req_password req))
  then mkRun (mkResponse 400 (ErrorBody "Password must be exactly 4 digits")) db []
  else
    let em := Js.toLowerCase (req_email req) in
    match single_by_email db em with
    | Some _ =>
        mkRun (mkResponse 400 (ErrorBody "User with this email already exists")) db
              [SelectByEmail em true]
    | None =>
        match createUser db em (req_password req) with
        | (inr msg, db1) =>
            mkRun (mkResponse 400 (ErrorBody msg)) db1
                  [SelectByEmail em false; CreateUser em (req_password req) (inr msg)]
        | (inl authUser, db1) =>
            let row := mkAppUser (auth_id authUser) em (req_fullName req) user
                                 (vehiclesArray (req_assignedVehicles req)) (Some caller) in
            match upsert db1 fault row with
            | (Some msg, db2) =>
                let (deleteError, db3) := deleteUser db2 (auth_id authUser) in
                mkRun (mkResponse 400 (ErrorBody msg)) db3
                      [SelectByEmail em false;
                       CreateUser em (req_password req) (inl (auth_id authUser));
                       Upsert row (Some msg);
                       DeleteUser (auth_id authUser) deleteError]
            | (None, db2) =>
                mkRun (mkResponse 200
                         (SuccessBody (success_message (req_email req) (req_password req))))
                      db2
                      [SelectByEmail em false;
                       CreateUser em (req_password req) (inl (auth_id authUser));
                       Upsert row None]
            end
        end
    end.

(** The credentials no directory row stands for. *)
Definition orphaned_credentials (db : Db) : list AuthUser :=
  filter (fun a => negb (existsb (fun u => id u =? auth_id a) (app_users db)))
         (auth_users db).

(** The assigned-vehicle set as the specification words it: split on
    commas, trim, uppercase, drop the empty entries, remove duplicates. *)
Definition spec_vehicle_set (vehicleCsv : string) : list string :=
  nodup string_dec
    (filter (fun v => negb (String.eqb v ""))
       (map Js.toUpperCase (map Js.trim (Js.split_comma vehicleCsv)))).

Definition fleet_db : Db :=
  mkDb [ mkAuthUser 1 "admin@admin.com" "s3cret"; mkAuthUser 2 "abebe@fleet.et" "1234" ]
       [ mkAppUser 1 "admin@admin.com" "System Administrator" admin [] None;
         mkAppUser 2 "abebe@fleet.et" "Abebe" user ["AA-1"] (Some 1) ].

Definition kebede_request : CreateUserRequest :=
  mkRequest "Kebede@Fleet.et" "4321" "Kebede" "abc-1, ABC-1,  ,et-77".

Example create_user_example :
  create_user fleet_db 1 None kebede_request =
  mkRun (mkResponse 200
           (SuccessBody "User created successfully! Login: Kebede@Fleet.et / Password: 4321"))
        (mkDb (auth_users fleet_db ++ [mkAuthUser 3 "kebede@fleet.et" "4321"])
              (app_users fleet_db ++
               [mkAppUser 3 "kebede@fleet.et" "Kebede" user ["ABC-1"; "ABC-1"; "ET-77"] (Some 1)]))
        [SelectByEmail "kebede@fleet.et" false;
         CreateUser "kebede@fleet.et" "4321" (inl 3);
         Upsert (mkAppUser 3 "kebede@fleet.et" "Kebede" user ["ABC-1"; "ABC-1"; "ET-77"] (Some 1))
                None].
Proof. reflexivity. Qed.

(** *** Facts about the backend operations *)

Lemma fresh_id_auth (db : Db) (a : AuthUser) :
  In a (auth_users db) -> auth_id a < fresh_id db.
Proof.
  intros Ha. unfold fresh_id.
  pose proof (proj1 (list_max_le (map auth_id (auth_users db) ++ map id (app_users db)) _)
                    (Nat.le_refl _)) as Hall.
  rewrite Forall_forall in Hall.
  assert (auth_id a <= list_max (map auth_id (auth_users db) ++ map id (app_users db))).
  { apply Hall, in_or_app. left. now apply in_map. }
  lia.
Qed.

Lemma fresh_id_app (db : Db) (u : AppUser) :
  In u (app_users db) -> id u < fresh_id db.
Proof.
  intros Hu. unfold fresh_id.
  pose proof (proj1 (list_max_le (map auth_id (auth_users db) ++ map id (app_users db)) _)
                    (Nat.le_refl _)) as Hall.
  rewrite Forall_forall in Hall.
  assert (id u <= list_max (map auth_id (auth_users db) ++ map id (app_users db))).
  { apply Hall, in_or_app. right. now apply in_map. }
  lia.
Qed.

Lemma createUser_inl (db db1 : Db) (em pw : string) (a : AuthUser) :
  createUser db em pw = (inl a, db1) ->
  a = mkAuthUser (fresh_id db) em pw /\
  db1 = mkDb (auth_users db ++ [a]) (handle_new_user a (app_users db)).
Proof.
  unfold createUser. destruct (existsb _ _); [discriminate|].
  intros H. injection H as <- <-. split; reflexivity.
Qed.

Lemma createUser_inr (db db1 : Db) (em pw msg : string) :
  createUser db em pw = (inr msg, db1) -> db1 = db.
Proof.
  unfold createUser. destruct (existsb _ _); [|discriminate].
  intros H. now injection H as _ <-.
Qed.

Lemma upsert_error (db db2 : Db) (fault : option string) (row : AppUser) (msg : string) :
  upsert db fault row = (Some msg, db2) -> db2 = db.
Proof.
  unfold upsert. destruct fault as [m|].
  - intros H. now injection H as _ <-.
  - destruct (existsb _ _); [|discriminate]. intros H. now injection H as _ <-.
Qed.

Lemma upsert_ok (db db2 : Db) (fault : option string) (row : AppUser) :
  upsert db fault row = (None, db2) ->
  db2 = mkDb (auth_users db) (upsert_row row (app_users db)) /\
  forall u, In u (app_users db) -> email u = email row -> id u = id row.
Proof.
  unfold upsert. destruct fault as [m|]; [discriminate|].
  destruct (existsb _ _) eqn:E; [discriminate|].
  intros H. injection H as <-. split; [reflexivity|].
  intros u Hu He.
  destruct (Nat.eq_dec (id u) (id row)) as [Hid|Hid]; [assumption|].
  exfalso. apply Bool.not_true_iff_false in E. apply E.
  apply existsb_exists. exists u. split; [assumption|].
  rewrite He, String.eqb_refl. apply Nat.eqb_neq in Hid. now rewrite Hid.
Qed.

(** Deleting the identity [createUser] has just made gives the credential
    table back as it was. *)
Lemma deleteUser_created (db : Db) (rows : list AppUser) (em pw : string) :
  deleteUser (mkDb (auth_users db ++ [mkAuthUser (fresh_id db) em pw]) rows) (fresh_id db)
  = (None, mkDb (auth_users db) rows).
Proof.
  unfold deleteUser. cbn [auth_users app_users].
  rewrite existsb_app. cbn [existsb auth_id]. rewrite Nat.eqb_refl, !orb_true_r.
  rewrite filter_app. cbn [filter auth_id]. rewrite Nat.eqb_refl. cbn [negb].
  rewrite app_nil_r, ListFacts.filter_all; [reflexivity|].
  intros a Ha. apply fresh_id_auth in Ha.
  apply negb_true_iff, Nat.eqb_neq. lia.
Qed.

Lemma handle_new_user_incl (new : AuthUser) (rows : list AppUser) :
  incl rows (handle_new_user new rows).
Proof.
  unfold handle_new_user. destruct (existsb _ _); [apply incl_refl|].
  apply incl_appl, incl_refl.
Qed.

(** *** Rows the handler adds *)

Definition is_admin (u : AppUser) : bool := Role_eqb (role u) admin.

Lemma upsert_row_In (row u : AppUser) (rows : list AppUser) :
  In u (upsert_row row rows) -> u = row \/ In u rows.
Proof.
  induction rows as [|x r IH]; simpl.
  - intros [H|[]]. now left.
  - destruct (id x =? id row); simpl.
    + intros [H|H]; [now left | now right; right].
    + intros [H|H]; [now right; left|]. destruct (IH H); [now left | now right; right].
Qed.

Lemma upsert_row_admins (row : AppUser) (rows : list AppUser) :
  role row = user ->
  (forall u, In u rows -> id u = id row -> role u = user) ->
  filter is_admin (upsert_row row rows) = filter is_admin rows.
Proof.
  intros Hrow.
  assert (Hr : is_admin row = false) by (unfold is_admin; now rewrite Hrow).
  induction rows as [|x r IH]; intros Hsame; cbn [upsert_row].
  - cbn [filter]. now rewrite Hr.
  - destruct (id x =? id row) eqn:E.
    + apply Nat.eqb_eq in E.
      assert (Hx : is_admin x = false).
      { unfold is_admin. now rewrite (Hsame x (or_introl eq_refl) E). }
      cbn [filter]. now rewrite Hr, Hx.
    + cbn [filter]. rewrite IH; [reflexivity|]. intros u Hu. apply Hsame. now right.
Qed.

(** Replacing the row of a fresh identity: it either sits last, put there
    by the trigger, or is absent. *)
Lemma upsert_row_fresh (row t : AppUser) (rows : list AppUser) :
  (forall u, In u rows -> id u <> id row) ->
  id t = id row ->
  upsert_row row (rows ++ [t]) = (rows ++ [row]) /\
  upsert_row row rows = (rows ++ [row]).
Proof.
  intros Hfresh Ht. induction rows as [|x r IH]; simpl.
  - rewrite Ht, Nat.eqb_refl. split; reflexivity.
  - assert (Hx : (id x =? id row) = false).
    { apply Nat.eqb_neq, Hfresh. now left. }
    rewrite Hx. destruct IH as [IH1 IH2].
    + intros u Hu. apply Hfresh. now right.
    + rewrite IH1, IH2. split; reflexivity.
Qed.

Lemma handle_new_user_In (new : AuthUser) (rows : list AppUser) (u : AppUser) :
  In u (handle_new_user new rows) ->
  In u rows \/ (role u = user /\ id u = auth_id new).
Proof.
  unfold handle_new_user. destruct (existsb _ _); [now left|].
  intros H. apply in_app_or in H. destruct H as [H|[H|[]]]; [now left|].
  subst u. right. split; reflexivity.
Qed.

Lemma handle_new_user_admins (new : AuthUser) (rows : list AppUser) :
  filter is_admin (handle_new_user new rows) = filter is_admin rows.
Proof.
  unfold handle_new_user. destruct (existsb _ _); [reflexivity|].
  rewrite filter_app. simpl. apply app_nil_r.
Qed.

(** What a successful run did. *)
Lemma create_user_success (db : Db) (caller : uuid) (fault : option string)
      (req : CreateUserRequest) :
  status (response (create_user db caller fault req)) = 200 ->
  let em := Js.toLowerCase (req_email req) in
  let row := mkAppUser (fresh_id db) em (req_fullName req) user
                       (vehiclesArray (req_assignedVehicles req)) (Some caller) in
  Js.test_4digits (req_password req) = true /\
  (forall u, In u (app_users db) -> email u <> em) /\
  db_after (create_user db caller fault req)
  = mkDb (auth_users db ++ [mkAuthUser (fresh_id db) em (req_password req)])
         (app_users db ++ [row]).
Proof.
  unfold create_user.
  destruct (Js.test_4digits (req_password req)); cbn [negb]; [|discriminate].
  destruct (single_by_email db _); [discriminate|].
  destruct (createUser db _ _) as [[a|e] db1] eqn:Hcreate; [|discriminate].
  apply createUser_inl in Hcreate. destruct Hcreate as [-> ->]. cbn [auth_id].
  match goal with |- context [upsert ?d ?f ?r] =>
    destruct (upsert d f r) as [[m|] db2] eqn:Hupsert end.
  - destruct (deleteUser _ _). discriminate.
  - intros _. cbv zeta. cbn [db_after].
    apply upsert_ok in Hupsert. cbn [auth_users app_users email id] in Hupsert.
    destruct Hupsert as [-> Hunique].
    assert (Hnone : forall u, In u (app_users db) ->
                              email u <> Js.toLowerCase (req_email req)).
    { intros u Hu He.
      pose proof (Hunique u (handle_new_user_incl _ _ u Hu) He) as Hid.
      apply fresh_id_app in Hu. lia. }
    split; [reflexivity|]. split; [exact Hnone|].
    f_equal. unfold handle_new_user. cbn [auth_email auth_id].
    assert (Hex : existsb (fun u => String.eqb (email u) (Js.toLowerCase (req_email req)))
                          (app_users db) = false).
    { apply Bool.not_true_iff_false. intros Hex. apply existsb_exists in Hex.
      destruct Hex as [u [Hu He]]. apply String.eqb_eq in He. exact (Hnone u Hu He). }
    rewrite Hex.
    apply upsert_row_fresh; [|reflexivity].
    intros u Hu. apply fresh_id_app in Hu. cbn [id]. lia.
Qed.

(** A request whose normalized e-mail exactly one directory row carries is
    turned down before the credential store is reached. *)
Lemma create_user_duplicate (db : Db) (caller : uuid) (fault : option string)
      (req : CreateUserRequest) (u : AppUser) :
  Js.test_4digits (req_password req) = true ->
  single_by_email db (Js.toLowerCase (req_email req)) = Some u ->
  create_user db caller fault req =
  mkRun (mkResponse 400 (ErrorBody "User with this email already exists")) db
        [SelectByEmail (Js.toLowerCase (req_email req)) true].
Proof.
  intros Hpw Hsingle. unfold create_user. rewrite Hpw, Hsingle. reflexivity.
Qed.

(** C10: a run of the create handler never adds or removes an
    administrator: the rows with role admin are the same before and after,
    and every row that was not there before has role user. *)
Theorem C10_create_user_keeps_admins :
  forall (db : Db) (caller : uuid) (fault : option string) (req : CreateUserRequest),
    select_by_role (db_after (create_user db caller fault req)) admin
    = select_by_role db admin /\
    (forall u, In u (app_users (db_after (create_user db caller fault req))) ->
               In u (app_users db) \/ role u = user).
Proof.
  intros db caller fault req. unfold select_by_role. fold is_admin.
  unfold create_user.
  destruct (Js.test_4digits (req_password req)); cbn [negb db_after];
    [|split; [reflexivity | now left]].
  destruct (single_by_email db _); cbn [db_after];
    [split; [reflexivity | now left]|].
  destruct (createUser db _ _) as [[a|e] db1] eqn:Hcreate.
  2:{ apply createUser_inr in Hcreate. subst db1. cbn [db_after].
      split; [reflexivity | now left]. }
  apply createUser_inl in Hcreate. destruct Hcreate as [-> ->]. cbn [auth_id].
  match goal with |- context [upsert ?d ?f ?r] =>
    destruct (upsert d f r) as [[m|] db2] eqn:Hupsert end.
  - apply upsert_error in Hupsert. subst db2. rewrite deleteUser_created.
    cbn [db_after app_users]. split; [apply handle_new_user_admins|].
    intros u Hu. apply handle_new_user_In in Hu. tauto.
  - apply upsert_ok in Hupsert. destruct Hupsert as [-> _].
    cbn [db_after app_users]. split.
    + rewrite upsert_row_admins; [apply handle_new_user_admins | reflexivity |].
      intros u Hu Hid. apply handle_new_user_In in Hu. destruct Hu as [Hu|[Hu _]]; [|exact Hu].
      apply fresh_id_app in Hu. cbn [id] in Hid. lia.
    + intros u Hu. apply upsert_row_In in Hu. destruct Hu as [->|Hu]; [now right|].
      apply handle_new_user_In in Hu. tauto.
Qed.

(** *** The parse of the vehicle list *)

Lemma upper_ascii_idem (c : ascii) :
  Js.upper_ascii (Js.upper_ascii c) = Js.upper_ascii c.
Proof. destruct c as [[] [] [] [] [] [] [] []]; vm_compute; reflexivity. Qed.

Lemma is_white_upper (c : ascii) :
  Js.is_white (Js.upper_ascii c) = Js.is_white c.
Proof. destruct c as [[] [] [] [] [] [] [] []]; vm_compute; reflexivity. Qed.

Lemma toUpperCase_idem (s : string) :
  Js.toUpperCase (Js.toUpperCase s) = Js.toUpperCase s.
Proof.
  induction s as [|c r IH]; simpl; [reflexivity|].
  now rewrite upper_ascii_idem, IH.
Qed.

Lemma toUpperCase_length (s : string) :
  String.length (Js.toUpperCase s) = String.length s.
Proof. induction s as [|c r IH]; simpl; congruence. Qed.

Lemma trimStart_upper (s : string) :
  Js.trimStart (Js.toUpperCase s) = Js.toUpperCase (Js.trimStart s).
Proof.
  induction s as [|c r IH]; simpl; [reflexivity|].
  rewrite is_white_upper. destruct (Js.is_white c); [exact IH | reflexivity].
Qed.

Lemma trimEnd_upper (s : string) :
  Js.trimEnd (Js.toUpperCase s) = Js.toUpperCase (Js.trimEnd s).
Proof.
  induction s as [|c r IH]; simpl; [reflexivity|].
  rewrite IH, is_white_upper.
  destruct (Js.trimEnd r) as [|d r']; simpl; [|reflexivity].
  destruct (Js.is_white c); reflexivity.
Qed.

Lemma trim_upper (s : string) :
  Js.trim (Js.toUpperCase s) = Js.toUpperCase (Js.trim s).
Proof. unfold Js.trim. now rewrite trimStart_upper, trimEnd_upper. Qed.

Lemma trimEnd_cons (c : ascii) (r : string) :
  Js.trimEnd (String c r) =
  match Js.trimEnd r with
  | EmptyString => if Js.is_white c then EmptyString else String c EmptyString
  | String d r' => String c (String d r')
  end.
Proof. reflexivity. Qed.

Lemma trimEnd_idem (s : string) : Js.trimEnd (Js.trimEnd s) = Js.trimEnd s.
Proof.
  induction s as [|c r IH]; [reflexivity|].
  rewrite (trimEnd_cons c r).
  destruct (Js.trimEnd r) as [|d r'] eqn:E.
  - destruct (Js.is_white c) eqn:W; [reflexivity|].
    rewrite trimEnd_cons. cbn [Js.trimEnd]. now rewrite W.
  - rewrite trimEnd_cons, IH. reflexivity.
Qed.

Lemma trimEnd_head (c : ascii) (r : string) :
  Js.is_white c = false -> Js.trimEnd (String c r) = String c (Js.trimEnd r).
Proof.
  intros W. simpl. destruct (Js.trimEnd r); [now rewrite W | reflexivity].
Qed.

Lemma trimStart_head (s : string) :
  Js.trimStart s = EmptyString \/
  exists c r, Js.trimStart s = String c r /\ Js.is_white c = false.
Proof.
  induction s as [|c r IH]; simpl; [now left|].
  destruct (Js.is_white c) eqn:W; [exact IH|]. right. now exists c, r.
Qed.

Lemma trim_idem (s : string) : Js.trim (Js.trim s) = Js.trim s.
Proof.
  unfold Js.trim. destruct (trimStart_head s) as [E | [c [r [E W]]]]; rewrite E.
  - reflexivity.
  - rewrite (trimEnd_head c r W). cbn [Js.trimStart]. rewrite W.
    rewrite (trimEnd_head c _ W), trimEnd_idem. reflexivity.
Qed.

Lemma nonempty_test (v : string) :
  (0 <? String.length v) = negb (String.eqb v "").
Proof. destruct v; reflexivity. Qed.

(** A plate listed twice, in two spellings. *)
Definition twice_request : CreateUserRequest :=
  mkRequest "kebede@fleet.et" "4321" "Kebede" "abc-1, ABC-1".

(** C8, as stated, fails: the parse removes no duplicate, so a plate listed
    twice is stored twice. *)
Lemma C8_plate_listed_twice_stored_twice :
  vehiclesArray "abc-1, ABC-1" = ["ABC-1"; "ABC-1"] /\
  spec_vehicle_set "abc-1, ABC-1" = ["ABC-1"] /\
  count_occ string_dec (vehiclesArray "abc-1, ABC-1") "ABC-1" = 2 /\
  map assigned_vehicles (app_users (db_after (create_user fleet_db 1 None twice_request)))
  = [[]; ["AA-1"]; ["ABC-1"; "ABC-1"]].
Proof. repeat split. Qed.

(** C8 amended: the stored collection is the list of the comma-separated
    entries, trimmed and uppercased, without the empty ones, in the order
    of the CSV and with repeats kept.  It has one entry for each non-blank
    field, every entry is non-empty, trimmed and uppercase, and its members
    are those of the set the specification describes (which is this list
    with the duplicates removed). *)
Theorem C8_vehicles_parsed_with_repeats :
  forall (db : Db) (caller : uuid) (fault : option string) (req : CreateUserRequest),
    (status (response (create_user db caller fault req)) = 200 ->
     exists row,
       In row (app_users (db_after (create_user db caller fault req))) /\
       email row = Js.toLowerCase (req_email req) /\
       assigned_vehicles row = vehiclesArray (req_assignedVehicles req)) /\
    List.length (vehiclesArray (req_assignedVehicles req))
    = List.length (filter (fun f => negb (String.eqb (Js.trim f) ""))
                          (Js.split_comma (req_assignedVehicles req))) /\
    (forall v, In v (vehiclesArray (req_assignedVehicles req)) ->
               v <> "" /\ Js.trim v = v /\ Js.toUpperCase v = v) /\
    nodup string_dec (vehiclesArray (req_assignedVehicles req))
    = spec_vehicle_set (req_assignedVehicles req) /\
    (forall v, In v (vehiclesArray (req_assignedVehicles req)) <->
               In v (spec_vehicle_set (req_assignedVehicles req))).
Proof.
  intros db caller fault req.
  assert (Hspec : nodup string_dec (vehiclesArray (req_assignedVehicles req))
                  = spec_vehicle_set (req_assignedVehicles req)).
  { unfold spec_vehicle_set, vehiclesArray. rewrite map_map. f_equal.
    apply filter_ext. intros v. destruct v; reflexivity. }
  split; [|split; [|split; [|split]]].
  - intros Hok.
    destruct (create_user_success db caller fault req Hok) as [_ [_ Hdb]].
    rewrite Hdb. cbn [app_users]. eexists. split.
    + apply in_or_app. right. left. reflexivity.
    + split; reflexivity.
  - unfold vehiclesArray.
    induction (Js.split_comma (req_assignedVehicles req)) as [|f fs IH];
      [reflexivity|].
    cbn [map filter]. rewrite toUpperCase_length, nonempty_test.
    destruct (negb (String.eqb (Js.trim f) "")); cbn [List.length]; now rewrite IH.
  - intros v Hv. unfold vehiclesArray in Hv. apply filter_In in Hv.
    destruct Hv as [Hin Hlen]. apply in_map_iff in Hin. destruct Hin as [f [<- _]].
    split; [|split].
    + intros E. rewrite E in Hlen. discriminate Hlen.
    + now rewrite trim_upper, trim_idem.
    + apply toUpperCase_idem.
  - exact Hspec.
  - intros v. rewrite <- Hspec. symmetry. apply nodup_In.
Qed.

Lemma C8_vehicles_parsed_with_repeats_witness :
  exists row,
    In row (app_users (db_after (create_user fleet_db 1 None kebede_request))) /\
    email row = "kebede@fleet.et" /\
    assigned_vehicles row = ["ABC-1"; "ABC-1"; "ET-77"].
Proof.
  destruct (C8_vehicles_parsed_with_repeats fleet_db 1 None kebede_request) as [Hstored _].
  apply Hstored. reflexivity.
Defined.

End AdminUsers.

(* ================================================================== *)
(** ** The create-user branch on any body, with a store that may refuse *)
(* ================================================================== *)

Module CreateUserHandler.
Import Store AdminUsers.

(** A field of the parsed JSON body the handler calls a string method on:
    a string, or any other value (absent, number, array, ...), on which the
    call throws a [TypeError] with the message [complaint]. *)
Inductive JsonField :=
| JString (s : string)
| NotString (complaint : string).

(** The body [await req.json()] yields, a JSON object.  [raw_password] is
    the text [/^\d{4}$/.test(password)] and the template string read off
    the field, [raw_fullName] the text the [full_name] column stores. *)
Record RawRequest := mkRaw {
  raw_email : JsonField;
  raw_password : string;
  raw_fullName : string;
  raw_assignedVehicles : JsonField
}.

(** The errors of the refusals the tables do not explain (connection,
    policy), one per statement that writes. *)
Record Faults := mkFaults {
  create_fault : option string;
  upsert_fault : option string;
  delete_fault : option string
}.

Definition no_faults : Faults := mkFaults None None None.

(** [auth.admin.createUser(...)], which the platform may refuse. *)
Definition auth_createUser (db : Db) (fault : option string) (em pw : string)
  : (AuthUser + string) * Db :=
  match fault with
  | Some msg => (inr msg, db)
  | None => createUser db em pw
  end.

(** [auth.admin.deleteUser(uid)], which the platform may refuse. *)
Definition auth_deleteUser (db : Db) (fault : option string) (uid : uuid)
  : option string * Db :=
  match fault with
  | Some msg => (Some msg, db)
  | None => deleteUser db uid
  end.

(** The branch [method === 'POST' && action === 'create-user'].  A
    [TypeError] is caught by the handler's [catch], which answers 500 with
    its message; what the run has done by then stays done.  The reply of
    [deleteUser] is not looked at. *)
Definition post_create_user (db : Db) (caller : uuid) (faults : Faults)
           (raw : RawRequest) : Run :=
  if negb (Js.test_4digits (raw_password raw))
  then mkRun (mkResponse 400 (ErrorBody "Password must be exactly 4 digits")) db []
  else
    match raw_email raw with
    | NotString complaint => mkRun (mkResponse 500 (ErrorBody complaint)) db []
    | JString email =>
        let em := Js.toLowerCase email in
        match single_by_email db em with
        | Some _ =>
            mkRun (mkResponse 400 (ErrorBody "User with this email already exists")) db
                  [SelectByEmail em true]
        | None =>
            match auth_createUser db (create_fault faults) em (raw_password raw) with
            | (inr msg, db1) =>
                mkRun (mkResponse 400 (ErrorBody msg)) db1
                      [SelectByEmail em false; CreateUser em (raw_password raw) (inr msg)]
            | (inl authUser, db1) =>
                match raw_assignedVehicles raw with
                | NotString complaint =>
                    mkRun (mkResponse 500 (ErrorBody complaint)) db1
                          [SelectByEmail em false;
                           CreateUser em (raw_password raw) (inl (auth_id authUser))]
                | JString assignedVehicles =>
                    let row := mkAppUser (auth_id authUser) em (raw_fullName raw) user
                                         (vehiclesArray assignedVehicles) (Some caller) in
                    match upsert db1 (upsert_fault faults) row with
                    | (Some msg, db2) =>
                        let (deleteError, db3) :=
                          auth_deleteUser db2 (delete_fault faults) (auth_id authUser) in
                        mkRun (mkResponse 400 (ErrorBody msg)) db3
                              [SelectByEmail em false;
                               CreateUser em (raw_password raw) (inl (auth_id authUser));
                               Upsert row (Some msg);
                               DeleteUser (auth_id authUser) deleteError]
                    | (None, db2) =>
                        mkRun (mkResponse 200
                                 (SuccessBody (success_message email (raw_password raw))))
                              db2
                              [SelectByEmail em false;
                               CreateUser em (raw_password raw) (inl (auth_id authUser));
                               Upsert row None]
                    end
                end
            end
        end
    end.

(** A body whose fields are strings. *)
Definition raw_of (req : CreateUserRequest) : RawRequest :=
  mkRaw (JString (req_email req)) (req_password req) (req_fullName req)
        (JString (req_assignedVehicles req)).

Definition kebede_raw : RawRequest := raw_of kebede_request.

(** The directory and the credential store both refuse. *)
Definition store_down : Faults :=
  mkFaults None (Some "permission denied for table app_users")
           (Some "Database error deleting user").

(** The directory refuses; the credential store does not. *)
Definition directory_down : Faults :=
  mkFaults None (Some "permission denied for table app_users") None.

(** A body whose [assignedVehicles] is an array. *)
Definition array_vehicles_raw : RawRequest :=
  mkRaw (JString "Kebede@Fleet.et") "4321" "Kebede"
        (NotString "assignedVehicles.split is not a function").

(** On string fields, with a credential store that does not refuse, the
    branch is [create_user]. *)
Lemma post_create_user_typed (db : Db) (caller : uuid) (fault : option string)
      (req : CreateUserRequest) :
  post_create_user db caller (mkFaults None fault None) (raw_of req)
  = create_user db caller fault req.
Proof.
  unfold post_create_user, create_user, raw_of, auth_createUser, auth_deleteUser.
  cbn [raw_email raw_password raw_fullName raw_assignedVehicles
       create_fault upsert_fault delete_fault].
  reflexivity.
Qed.

(** A run answered 200 met string fields and no refusal: it is the run of
    [create_user] on them. *)
Lemma post_create_user_success (db : Db) (caller : uuid) (faults : Faults)
      (raw : RawRequest) :
  status (response (post_create_user db caller faults raw)) = 200 ->
  exists email assignedVehicles,
    raw_email raw = JString email /\
    raw_assignedVehicles raw = JString assignedVehicles /\
    post_create_user db caller faults raw
    = create_user db caller None
                  (mkRequest email (raw_password raw) (raw_fullName raw) assignedVehicles).
Proof.
  destruct raw as [em pw fn vs]. destruct faults as [cf uf df].
  unfold post_create_user, create_user, auth_createUser, auth_deleteUser.
  cbn [raw_email raw_password raw_fullName raw_assignedVehicles
       create_fault upsert_fault delete_fault].
  destruct (Js.test_4digits pw) eqn:Hpw; cbn [negb]; [|discriminate].
  destruct em as [email|complaint]; [|discriminate].
  destruct (single_by_email db _) eqn:Hsingle; [discriminate|].
  destruct cf as [m|]; [discriminate|].
  destruct (createUser db _ _) as [[a|e] db1] eqn:Hcreate; [|discriminate].
  destruct vs as [vehicles|complaint]; [|discriminate].
  match goal with |- context [upsert ?d ?f ?r] =>
    destruct (upsert d f r) as [[m|] db2] eqn:Hupsert end.
  - destruct df as [e|]; [discriminate|]. destruct (deleteUser _ _). discriminate.
  - intros _. exists email, vehicles. split; [reflexivity|]. split; [reflexivity|].
    cbn [req_email req_password req_fullName req_assignedVehicles].
    rewrite Hpw, Hsingle, Hcreate. cbn [negb].
    destruct uf as [m|]; [discriminate Hupsert|]. now rewrite Hupsert.
Qed.

(** C4, as stated, fails: the handler awaits [deleteUser] and does not look
    at its reply.  When the credential store refuses the deletion after the
    directory has refused the insertion, the insertion error is returned
    with the just-created credential still in the store, and good for a
    sign-in. *)
Lemma C4_refused_delete_leaves_credential :
  calls (post_create_user fleet_db 1 store_down kebede_raw)
  = [SelectByEmail "kebede@fleet.et" false;
     CreateUser "kebede@fleet.et" "4321" (inl 3);
     Upsert (mkAppUser 3 "kebede@fleet.et" "Kebede" user ["ABC-1"; "ABC-1"; "ET-77"] (Some 1))
            (Some "permission denied for table app_users");
     DeleteUser 3 (Some "Database error deleting user")] /\
  response (post_create_user fleet_db 1 store_down kebede_raw)
  = mkResponse 400 (ErrorBody "permission denied for table app_users") /\
  auth_users (db_after (post_create_user fleet_db 1 store_down kebede_raw))
  = auth_users fleet_db ++ [mkAuthUser 3 "kebede@fleet.et" "4321"] /\
  signInWithPassword (db_after (post_create_user fleet_db 1 store_down kebede_raw))
                     "kebede@fleet.et" "4321"
  = true /\
  signInWithPassword fleet_db "kebede@fleet.et" "4321" = false.
Proof. repeat split. Qed.

(** C4 amended: in every run in which the credential was created and the
    directory insertion then failed, the handler asks the credential store
    to delete that credential before it answers: the run is the creation,
    the failed insertion and the deletion, in this order on the store, the
    deletion is its last call, and the answer is the insertion error.  When
    the store carries the deletion out, the credential table is back to
    what it was, no credential bears the new identifier and no orphaned
    credential is left that was not there before. *)
Theorem C4_failed_insert_asks_for_deletion :
  forall (db : Db) (caller : uuid) (faults : Faults) (raw : RawRequest)
         (em pw : string) (uid : uuid) (row : AppUser) (msg : string),
    In (CreateUser em pw (inl uid)) (calls (post_create_user db caller faults raw)) ->
    In (Upsert row (Some msg)) (calls (post_create_user db caller faults raw)) ->
    exists (authUser : AuthUser) (db1 : Db) (deleteError : option string),
      auth_createUser db (create_fault faults) em pw = (inl authUser, db1) /\
      auth_id authUser = uid /\
      upsert db1 (upsert_fault faults) row = (Some msg, db1) /\
      auth_deleteUser db1 (delete_fault faults) uid
      = (deleteError, db_after (post_create_user db caller faults raw)) /\
      calls (post_create_user db caller faults raw)
      = [SelectByEmail em false; CreateUser em pw (inl uid); Upsert row (Some msg);
         DeleteUser uid deleteError] /\
      response (post_create_user db caller faults raw) = mkResponse 400 (ErrorBody msg) /\
      (deleteError = None ->
       auth_users (db_after (post_create_user db caller faults raw)) = auth_users db /\
       (forall a, In a (auth_users (db_after (post_create_user db caller faults raw))) ->
                  auth_id a <> uid) /\
       incl (orphaned_credentials (db_after (post_create_user db caller faults raw)))
            (orphaned_credentials db)).
Proof.
  intros db caller faults raw em pw uid row msg.
  unfold post_create_user.
  destruct (Js.test_4digits (raw_password raw)); cbn [negb]; [|intros []].
  destruct (raw_email raw) as [email|complaint]; [|intros []].
  destruct (single_by_email db _); [intros [H|[]]; discriminate H|].
  destruct (auth_createUser db _ _ _) as [[a|e] db1] eqn:Hcreate;
    [|intros [H|[H|[]]]; discriminate H].
  destruct (raw_assignedVehicles raw) as [vehicles|complaint];
    [|intros _ [H|[H|[]]]; discriminate H].
  match goal with |- context [upsert ?d ?f ?r] =>
    destruct (upsert d f r) as [[m|] db2] eqn:Hupsert end.
  2:{ cbn [calls]. intros _ [H|[H|[H|[]]]]; discriminate H. }
  pose proof (upsert_error _ _ _ _ _ Hupsert) as Hdb2. subst db2.
  destruct (auth_deleteUser db1 _ _) as [deleteError db3] eqn:Hdelete.
  cbn [calls response db_after].
  intros [H|[H|[H|[H|[]]]]]; try discriminate H. injection H as <- <- <-.
  intros [H|[H|[H|[H|[]]]]]; try discriminate H. injection H as <- <-.
  exists a, db1, deleteError.
  split; [exact Hcreate|]. split; [reflexivity|]. split; [exact Hupsert|].
  split; [exact Hdelete|]. split; [reflexivity|]. split; [reflexivity|].
  intros ->.
  unfold auth_createUser in Hcreate.
  destruct (create_fault faults) as [e|]; [discriminate Hcreate|].
  apply createUser_inl in Hcreate. destruct Hcreate as [-> ->].
  cbn [auth_id] in *.
  assert (Hdb3 : db3 = mkDb (auth_users db)
                            (handle_new_user (mkAuthUser (fresh_id db) (Js.toLowerCase email)
                                                         (raw_password raw))
                                             (app_users db))).
  { unfold auth_deleteUser in Hdelete. destruct (delete_fault faults) as [e|].
    - discriminate Hdelete.
    - rewrite deleteUser_created in Hdelete. now injection Hdelete as <-. }
  subst db3. cbn [auth_users app_users].
  split; [reflexivity|].
  split; [intros x Hx; apply fresh_id_auth in Hx; lia|].
  intros x Hx. unfold orphaned_credentials in *. cbn [auth_users app_users] in Hx.
  apply filter_In in Hx. destruct Hx as [Hx Horph]. apply filter_In. split; [assumption|].
  apply negb_true_iff in Horph. apply negb_true_iff.
  apply Bool.not_true_iff_false. intros Hex. apply Bool.not_true_iff_false in Horph.
  apply Horph. apply existsb_exists in Hex. destruct Hex as [u [Hu Hid]].
  apply existsb_exists. exists u. split; [|assumption].
  now apply handle_new_user_incl.
Qed.

(** The directory refuses the insertion of the new account; the credential
    store carries the deletion out. *)
Lemma C4_failed_insert_asks_for_deletion_witness :
  calls (post_create_user fleet_db 1 directory_down kebede_raw)
  = [SelectByEmail "kebede@fleet.et" false;
     CreateUser "kebede@fleet.et" "4321" (inl 3);
     Upsert (mkAppUser 3 "kebede@fleet.et" "Kebede" user ["ABC-1"; "ABC-1"; "ET-77"] (Some 1))
            (Some "permission denied for table app_users");
     DeleteUser 3 None] /\
  response (post_create_user fleet_db 1 directory_down kebede_raw)
  = mkResponse 400 (ErrorBody "permission denied for table app_users") /\
  db_after (post_create_user fleet_db 1 directory_down kebede_raw)
  = mkDb (auth_users fleet_db)
         (app_users fleet_db
          ++ [mkAppUser 3 "kebede@fleet.et" "kebede@fleet.et" user [] None]) /\
  auth_users (db_after (post_create_user fleet_db 1 directory_down kebede_raw))
  = auth_users fleet_db.
Proof.
  destruct (C4_failed_insert_asks_for_deletion fleet_db 1 directory_down kebede_raw
              "kebede@fleet.et" "4321" 3
              (mkAppUser 3 "kebede@fleet.et" "Kebede" user ["ABC-1"; "ABC-1"; "ET-77"] (Some 1))
              "permission denied for table app_users")
    as [authUser [db1 [deleteError [Hcreate [_ [_ [Hdelete [Hcalls [Hresp Hdone]]]]]]]]].
  - simpl. auto.
  - simpl. auto.
  - vm_compute in Hcreate. injection Hcreate as <- <-.
    assert (HdeleteError : deleteError = None).
    { pose proof (f_equal fst Hdelete) as Hfst. vm_compute in Hfst. now symmetry. }
    split; [now rewrite Hcalls, HdeleteError|].
    split; [exact Hresp|].
    split; [|now apply Hdone].
    apply (f_equal snd) in Hdelete. cbn [snd] in Hdelete. now rewrite <- Hdelete.
Defined.

(** C7, as stated, fails: the passcode is checked before the directory is
    looked up, so a second request with the same normalized e-mail and a
    malformed passcode is answered with the passcode error, not the
    duplicate-account error. *)
Lemma C7_malformed_passcode_answered_first :
  status (response (post_create_user fleet_db 1 no_faults kebede_raw)) = 200 /\
  post_create_user (db_after (post_create_user fleet_db 1 no_faults kebede_raw)) 1 no_faults
                   (mkRaw (JString "KEBEDE@fleet.et") "12345" "K." (JString ""))
  = mkRun (mkResponse 400 (ErrorBody "Password must be exactly 4 digits"))
          (db_after (post_create_user fleet_db 1 no_faults kebede_raw)) [].
Proof. split; reflexivity. Qed.

(** C7 amended: after a successful creation, a second request with the same
    normalized e-mail is refused with status 400: as a duplicate account
    when its passcode is four digits, with the passcode error otherwise.
    Either way it leaves the backend, credentials included, as it was, and
    calls nothing but, in the first case, the directory look-up. *)
Theorem C7_second_create_refused_unchanged :
  forall (db : Db) (caller1 caller2 : uuid) (faults1 faults2 : Faults)
         (raw1 raw2 : RawRequest) (email1 email2 : string),
    status (response (post_create_user db caller1 faults1 raw1)) = 200 ->
    raw_email raw1 = JString email1 ->
    raw_email raw2 = JString email2 ->
    Js.toLowerCase email2 = Js.toLowerCase email1 ->
    post_create_user (db_after (post_create_user db caller1 faults1 raw1))
                     caller2 faults2 raw2
    = if Js.test_4digits (raw_password raw2)
      then mkRun (mkResponse 400 (ErrorBody "User with this email already exists"))
                 (db_after (post_create_user db caller1 faults1 raw1))
                 [SelectByEmail (Js.toLowerCase email2) true]
      else mkRun (mkResponse 400 (ErrorBody "Password must be exactly 4 digits"))
                 (db_after (post_create_user db caller1 faults1 raw1)) [].
Proof.
  intros db caller1 caller2 faults1 faults2 raw1 raw2 email1 email2 Hok H1 H2 Hemail.
  destruct (post_create_user_success db caller1 faults1 raw1 Hok)
    as [e1 [v1 [He1 [_ Hrun]]]].
  rewrite H1 in He1. injection He1 as <-.
  rewrite Hrun in Hok |- *.
  destruct (create_user_success db caller1 None _ Hok) as [_ [Hnone Hdb]].
  cbn [req_email req_password req_fullName req_assignedVehicles] in Hnone, Hdb.
  rewrite Hdb. unfold post_create_user at 1.
  destruct (Js.test_4digits (raw_password raw2)); cbn [negb]; [|reflexivity].
  rewrite H2.
  assert (Hsingle : exists u,
             single_by_email
               (mkDb (auth_users db ++
                      [mkAuthUser (fresh_id db) (Js.toLowerCase email1) (raw_password raw1)])
                     (app_users db ++
                      [mkAppUser (fresh_id db) (Js.toLowerCase email1) (raw_fullName raw1) user
                                 (vehiclesArray v1) (Some caller1)]))
               (Js.toLowerCase email2) = Some u).
  { eexists. unfold single_by_email. cbn [app_users]. rewrite Hemail, filter_app.
    rewrite ListFacts.filter_none.
    - cbn [filter email app]. rewrite String.eqb_refl. reflexivity.
    - intros u Hu. apply String.eqb_neq. now apply Hnone. }
  destruct Hsingle as [u ->]. reflexivity.
Qed.

Lemma C7_second_create_refused_unchanged_witness :
  post_create_user (db_after (post_create_user fleet_db 1 no_faults kebede_raw)) 1 store_down
                   (mkRaw (JString "KEBEDE@fleet.et") "9999" "K." (NotString "absent"))
  = mkRun (mkResponse 400 (ErrorBody "User with this email already exists"))
          (db_after (post_create_user fleet_db 1 no_faults kebede_raw))
          [SelectByEmail "kebede@fleet.et" true].
Proof.
  exact (C7_second_create_refused_unchanged fleet_db 1 1 no_faults store_down kebede_raw
           (mkRaw (JString "KEBEDE@fleet.et") "9999" "K." (NotString "absent"))
           "Kebede@Fleet.et" "KEBEDE@fleet.et" eq_refl eq_refl eq_refl eq_refl).
Defined.

End CreateUserHandler.

(* ================================================================== *)
(** ** Passcode look-up on the server: the [auth-with-passcode] function *)
(* ================================================================== *)

Module PasscodeAuth.
Import Store.

Inductive Method := OPTIONS | POST | OtherMethod.

(** A field of the JSON body: absent, present with a value that is not a
    string, or a string. *)
Inductive JsonValue :=
| JMissing
| JNotString
| JString (s : string).

Inductive Body :=
| Plain (text : string)
| ErrorBody (error : string)
| UserFound (email fullName : string).

Record Response := mkResponse {
  status : nat;
  body : Body
}.

(** The response and the calls made to [signInWithPassword], in order. *)
Record Run := mkRun {
  response : Response;
  signIn_calls : list (string * string)
}.

(** [!v || typeof v !== 'string'], and the string otherwise. *)
Definition string_field (v : JsonValue) : option string :=
  match v with
  | JString s => if String.eqb s "" then None else Some s
  | _ => None
  end.

(** The loop over [users]: sign in with each e-mail in turn and stop at the
    first success. *)
Fixpoint match_user (db : Db) (passcode : string) (users : list AppUser)
  : option AppUser * list (string * string) :=
  match users with
  | [] => (None, [])
  | u :: rest =>
      if signInWithPassword db (email u) passcode
      then (Some u, [(email u, passcode)])
      else
        let (matchedUser, tried) := match_user db passcode rest in
        (matchedUser, (email u, passcode) :: tried)
  end.

(** The request handler; [fetchError] is the error of the directory query,
    if any. *)
Definition auth_with_passcode (db : Db) (fetchError : option string) (method : Method)
           (passcode plateNumber : JsonValue) : Run :=
  match method with
  | OPTIONS => mkRun (mkResponse 200 (Plain "ok")) []
  | OtherMethod => mkRun (mkResponse 405 (ErrorBody "Method not allowed")) []
  | POST =>
      match string_field passcode with
      | None => mkRun (mkResponse 400 (ErrorBody "Invalid passcode format. Must be 4 digits.")) []
      | Some code =>
          if negb (Js.test_4digits code)
          then mkRun (mkResponse 400 (ErrorBody "Invalid passcode format. Must be 4 digits.")) []
          else
            match string_field plateNumber with
            | None => mkRun (mkResponse 400 (ErrorBody "Vehicle plate number is required.")) []
            | Some plate =>
                if String.length (Js.trim plate) =? 0
                then mkRun (mkResponse 400 (ErrorBody "Vehicle plate number is required.")) []
                else
                  match fetchError with
                  | Some _ => mkRun (mkResponse 500 (ErrorBody "Database error")) []
                  | None =>
                      match select_by_role db user with
                      | [] => mkRun (mkResponse 404 (ErrorBody "No users found")) []
                      | users =>
                          match match_user db code users with
                          | (None, tried) =>
                              mkRun (mkResponse 401 (ErrorBody "Invalid passcode")) tried
                          | (Some matchedUser, tried) =>
                              mkRun (mkResponse 200
                                       (UserFound (email matchedUser) (full_name matchedUser)))
                                    tried
                          end
                      end
                  end
            end
      end
  end.

Lemma trim_nonblank (plate : string) :
  Js.trim plate <> "" ->
  string_field (JString plate) = Some plate /\
  (String.length (Js.trim plate) =? 0) = false.
Proof.
  intros H. split.
  - simpl. destruct plate; [now elim H | reflexivity].
  - destruct (Js.trim plate); [now elim H | reflexivity].
Qed.

(** C9: the plate number is only checked for presence.  Two requests that
    differ only in their (non-blank) plate numbers get the same response,
    after the same sign-in attempts. *)
Theorem C9_plate_number_not_used :
  forall (db : Db) (fetchError : option string) (method : Method)
         (passcode : JsonValue) (plate1 plate2 : string),
    Js.trim plate1 <> "" ->
    Js.trim plate2 <> "" ->
    auth_with_passcode db fetchError method passcode (JString plate1)
    = auth_with_passcode db fetchError method passcode (JString plate2).
Proof.
  intros db fetchError method passcode plate1 plate2 H1 H2.
  destruct (trim_nonblank plate1 H1) as [F1 T1].
  destruct (trim_nonblank plate2 H2) as [F2 T2].
  unfold auth_with_passcode. rewrite F1, F2, T1, T2. reflexivity.
Qed.

(** The driver of [AA-1] is found whatever plate comes with the code. *)
Lemma C9_plate_number_not_used_witness :
  auth_with_passcode AdminUsers.fleet_db None POST (JString "1234") (JString "AA-1")
  = auth_with_passcode AdminUsers.fleet_db None POST (JString "1234") (JString "zz-9 ").
Proof.
  apply (C9_plate_number_not_used AdminUsers.fleet_db None POST (JString "1234") "AA-1" "zz-9 ");
    discriminate.
Defined.

Example auth_with_passcode_example :
  auth_with_passcode AdminUsers.fleet_db None POST (JString "1234") (JString "zz-9 ")
  = mkRun (mkResponse 200 (UserFound "abebe@fleet.et" "Abebe")) [("abebe@fleet.et", "1234")].
Proof. reflexivity. Qed.

End PasscodeAuth.

(* ================================================================== *)
(** ** Facts about the stable sort *)
(* ================================================================== *)

Module SortFacts.

Section Comparator.
Context {A : Type} (cmp : A -> A -> comparison).

(** [le x y]: the comparator does not put [x] after [y]. *)
Definition le (x y : A) : Prop := cmp x y <> Gt.

(** A consistent comparator: swapping the arguments flips the sign, and
    the order it induces is transitive. *)
Hypothesis cmp_flip : forall x y, cmp y x = CompOpp (cmp x y).
Hypothesis cmp_trans : forall x y z, le x y -> le y z -> le x z.

Lemma sort_insert_perm (x : A) (l : list A) :
  Permutation (x :: l) (Js.sort_insert cmp x l).
Proof.
  induction l as [|y r IH]; simpl; [apply Permutation_refl|].
  destruct (cmp x y); try apply Permutation_refl.
  eapply perm_trans; [apply perm_swap | now apply perm_skip].
Qed.

Lemma sort_perm (l : list A) : Permutation l (Js.sort cmp l).
Proof.
  induction l as [|x r IH]; simpl; [constructor|].
  eapply perm_trans; [apply perm_skip, IH | apply sort_insert_perm].
Qed.

Lemma gt_le (x y : A) : cmp x y = Gt -> le y x.
Proof. unfold le. intros H. rewrite cmp_flip, H. discriminate. Qed.

Lemma sort_insert_sorted (x : A) (l : list A) :
  StronglySorted le l -> StronglySorted le (Js.sort_insert cmp x l).
Proof.
  induction 1 as [|y r Hr IH Hy]; simpl.
  - constructor; constructor.
  - destruct (cmp x y) eqn:E.
    + constructor; [now constructor|]. constructor.
      * unfold le. rewrite E. discriminate.
      * eapply Forall_impl; [|exact Hy]. intros z Hz.
        apply (cmp_trans x y z); [unfold le; rewrite E; discriminate | exact Hz].
    + constructor; [now constructor|]. constructor.
      * unfold le. rewrite E. discriminate.
      * eapply Forall_impl; [|exact Hy]. intros z Hz.
        apply (cmp_trans x y z); [unfold le; rewrite E; discriminate | exact Hz].
    + constructor; [exact IH|].
      rewrite Forall_forall. intros z Hz.
      apply (Permutation_in z (Permutation_sym (sort_insert_perm x r))) in Hz.
      destruct Hz as [<-|Hz]; [now apply gt_le|].
      rewrite Forall_forall in Hy. now apply Hy.
Qed.

Lemma sort_sorted (l : list A) : StronglySorted le (Js.sort cmp l).
Proof.
  induction l as [|x r IH]; simpl; [constructor | now apply sort_insert_sorted].
Qed.

(** Two sorted arrangements of the same elements coincide as soon as the
    comparator tells the elements apart. *)
Lemma sorted_unique (l1 l2 : list A) :
  StronglySorted le l1 -> StronglySorted le l2 -> Permutation l1 l2 ->
  (forall x y, In x l1 -> In y l1 -> le x y -> le y x -> x = y) ->
  l1 = l2.
Proof.
  intros S1. revert l2. induction S1 as [|a t1 St1 IH Ha]; intros l2 S2 P Hanti.
  - apply Permutation_nil in P. now subst.
  - destruct l2 as [|b t2]; [apply Permutation_sym, Permutation_nil in P; discriminate|].
    inversion S2 as [|b' t2' St2 Hb]; subst.
    rewrite Forall_forall in Ha, Hb.
    assert (Hab : a = b).
    { assert (Ina : In a (b :: t2)) by (apply (Permutation_in a P); now left).
      assert (Inb : In b (a :: t1))
        by (apply (Permutation_in b (Permutation_sym P)); now left).
      destruct Ina as [->|Ina]; [reflexivity|].
      destruct Inb as [<-|Inb]; [reflexivity|].
      apply Hanti; [now left | now right | now apply Ha | now apply Hb]. }
    subst b. f_equal. apply IH; [exact St2 | now apply Permutation_cons_inv with a|].
    intros x y Hx Hy. apply Hanti; now right.
Qed.

Lemma sort_permutation_eq (l l' : list A) :
  Permutation l l' ->
  (forall x y, In x l -> In y l -> le x y -> le y x -> x = y) ->
  Js.sort cmp l' = Js.sort cmp l.
Proof.
  intros P Hanti. symmetry. apply sorted_unique; try apply sort_sorted.
  - eapply perm_trans; [apply Permutation_sym, sort_perm|].
    eapply perm_trans; [exact P | apply sort_perm].
  - intros x y Hx Hy. apply Hanti.
    + now apply (Permutation_in x (Permutation_sym (sort_perm l))).
    + now apply (Permutation_in y (Permutation_sym (sort_perm l))).
Qed.

End Comparator.

(** Sorting commutes with a projection the comparator factors through. *)
Lemma sort_map {A B : Type} (f : B -> A) (cmpA : A -> A -> comparison)
      (cmpB : B -> B -> comparison) (l : list B) :
  (forall x y, cmpB x y = cmpA (f x) (f y)) ->
  map f (Js.sort cmpB l) = Js.sort cmpA (map f l).
Proof.
  intros Hcmp.
  assert (Hins : forall x r, map f (Js.sort_insert cmpB x r)
                             = Js.sort_insert cmpA (f x) (map f r)).
  { intros x r. induction r as [|y r IH]; simpl; [reflexivity|].
    rewrite <- Hcmp. destruct (cmpB x y); simpl; try reflexivity. now rewrite IH. }
  induction l as [|x r IH]; simpl; [reflexivity|]. now rewrite Hins, IH.
Qed.

(** [String.compare] orders the strings. *)
Lemma string_compare_trans (x y z : string) :
  String.compare x y <> Gt -> String.compare y z <> Gt -> String.compare x z <> Gt.
Proof.
  revert y z. induction x as [|a x IH]; intros [|b y] [|c z]; simpl;
    try congruence; try discriminate.
  destruct (Ascii.compare a b) eqn:Eab; [| |congruence].
  - apply Ascii.compare_eq_iff in Eab. subst b.
    destruct (Ascii.compare a c); [apply IH | discriminate | congruence].
  - destruct (Ascii.compare b c) eqn:Ebc; [| |congruence].
    + apply Ascii.compare_eq_iff in Ebc. subst c. rewrite Eab. discriminate.
    + assert (Eac : Ascii.compare a c = Lt).
      { unfold Ascii.compare in *. rewrite N.compare_lt_iff in *. lia. }
      rewrite Eac. discriminate.
Qed.

End SortFacts.

(* ================================================================== *)
(** ** Fleet aggregation: [AdminPanel.groupRecordsByPlate] *)
(* ================================================================== *)

Module Aggregator.
Import Store.

(** A row of [fuel_records].  [filling_date] holds the instant
    [new Date(filling_date).getTime()] the comparator reads; the numbers are
    IEEE 754 doubles, as in JavaScript. *)
Record FuelRecord := mkFuelRecord {
  record_id : uuid;
  plate_number : string;
  filling_date : Z;
  fuel_liters : float;
  odometer_reading : option float;
  user_id : option uuid
}.

Record GroupedRecord := mkGroupedRecord {
  group_plate_number : string;
  records : list FuelRecord;
  totalFuel : float;
  averageFuel : float;
  recordCount : nat;
  latestOdometer : option float;
  firstOdometer : option float
}.

(** The callback of the first [reduce]: [acc[plateNumber].push(record)],
    after [acc[plateNumber] = []] when the plate is new.  The object is
    kept as the list of its entries, in the order the keys were added.
    ([Object.entries] lists keys that read as array indices ahead of the
    others; [sort_by_plate_arrangement] below shows that, for plates the
    collation tells apart, the arrangement of the entries does not reach
    the output.  Plates are taken not to name a member of
    [Object.prototype], such as [constructor], on which the callback
    throws.) *)
Fixpoint push_record (acc : list (string * list FuelRecord)) (record : FuelRecord)
  : list (string * list FuelRecord) :=
  match acc with
  | [] => [(plate_number record, [record])]
  | (plate, rs) :: rest =>
      if String.eqb plate (plate_number record)
      then (plate, rs ++ [record]) :: rest
      else (plate, rs) :: push_record rest record
  end.

Definition grouped (recs : list FuelRecord) : list (string * list FuelRecord) :=
  fold_left push_record recs [].

(** A record count as a double. *)
Fixpoint float_of_nat (n : nat) : float :=
  match n with
  | O => 0%float
  | S k => (float_of_nat k + 1)%float
  end.

(** One step of [Math.max]: [NaN] is contagious and [+0] exceeds [-0]. *)
Definition max_step (highest x : float) : float :=
  if is_nan highest || is_nan x then nan
  else if (highest <? x)%float then x
  else if is_zero highest && is_zero x && get_sign highest && negb (get_sign x) then x
  else highest.

Definition min_step (lowest x : float) : float :=
  if is_nan lowest || is_nan x then nan
  else if (x <? lowest)%float then x
  else if is_zero lowest && is_zero x && negb (get_sign lowest) && get_sign x then x
  else lowest.

(** [Math.max(...xs)] and [Math.min(...xs)]. *)
Definition Math_max (xs : list float) : float := fold_left max_step xs neg_infinity.
Definition Math_min (xs : list float) : float := fold_left min_step xs infinity.

(** The sign of [new Date(b.filling_date).getTime() -
    new Date(a.filling_date).getTime()]. *)
Definition by_date_desc (a b : FuelRecord) : comparison :=
  (filling_date b ?= filling_date a)%Z.

Section Collation.

(** [a.localeCompare(b)]: the collation of the default locale of the
    runtime, which the repository does not fix.  ECMAScript requires it to
    be a consistent comparator: swapping the arguments flips the sign and
    the order it induces is transitive.  It need not tell two distinct
    strings apart: collations ignore control characters, for one. *)
Variable localeCompare : string -> string -> comparison.

Hypothesis localeCompare_flip :
  forall a b, localeCompare b a = CompOpp (localeCompare a b).
Hypothesis localeCompare_trans :
  forall a b c, localeCompare a b <> Gt -> localeCompare b c <> Gt ->
                localeCompare a c <> Gt.

Definition by_plate (a b : GroupedRecord) : comparison :=
  localeCompare (group_plate_number a) (group_plate_number b).

(** [sortedRecords.map(r => r.odometer_reading).filter(...).map(Number)]. *)
Definition odometerReadings (sortedRecords : list FuelRecord) : list float :=
  flat_map (fun r => match odometer_reading r with Some x => [x] | None => [] end)
           sortedRecords.

Definition extreme (f : list float -> float) (readings : list float) : option float :=
  if 0 <? List.length readings then Some (f readings) else None.

(** The callback of [Object.entries(grouped).map]. *)
Definition summarize (entry : string * list FuelRecord) : GroupedRecord :=
  let (plate, recs) := entry in
  let total := fold_left (fun sum record => (sum + fuel_liters record)%float) recs 0%float in
  let average := (total / float_of_nat (List.length recs))%float in
  let sortedRecords := Js.sort by_date_desc recs in
  let readings := odometerReadings sortedRecords in
  mkGroupedRecord plate sortedRecords total average (List.length recs)
                  (extreme Math_max readings) (extreme Math_min readings).

(** [groupRecordsByPlate(records)]. *)
Definition groupRecordsByPlate (recs : list FuelRecord) : list GroupedRecord :=
  Js.sort by_plate (map summarize (grouped recs)).

Definition fill (n : nat) (plate : string) (date : Z) (liters : float) : FuelRecord :=
  mkFuelRecord n plate date liters None None.

(** *** The partitions *)

(** The plates of the records, each once, in order of first appearance. *)
Fixpoint add_key (ks : list string) (k : string) : list string :=
  match ks with
  | [] => [k]
  | k0 :: r => if String.eqb k0 k then ks else k0 :: add_key r k
  end.

Definition plates (recs : list FuelRecord) : list string :=
  fold_left add_key (map plate_number recs) [].

Definition on_plate (k : string) (r : FuelRecord) : bool :=
  String.eqb (plate_number r) k.

(** The partition of a plate: its records, in input order. *)
Definition partition_of (recs : list FuelRecord) (k : string) : string * list FuelRecord :=
  (k, filter (on_plate k) recs).

Lemma add_key_In (ks : list string) (k k' : string) :
  In k' (add_key ks k) <-> k' = k \/ In k' ks.
Proof.
  induction ks as [|k0 r IH]; simpl.
  - intuition congruence.
  - destruct (String.eqb k0 k) eqn:E; simpl.
    + apply String.eqb_eq in E. subst k0. intuition congruence.
    + rewrite IH. intuition congruence.
Qed.

Lemma add_key_NoDup (ks : list string) (k : string) :
  NoDup ks -> NoDup (add_key ks k).
Proof.
  induction 1 as [|k0 r Hk0 Hr IH]; simpl.
  - constructor; [intros [] | constructor].
  - destruct (String.eqb k0 k) eqn:E; [now constructor|].
    constructor; [|exact IH].
    rewrite add_key_In. intros [->|H]; [|contradiction].
    now rewrite String.eqb_refl in E.
Qed.

Lemma plates_snoc (recs : list FuelRecord) (r : FuelRecord) :
  plates (recs ++ [r]) = add_key (plates recs) (plate_number r).
Proof. unfold plates. now rewrite map_app, fold_left_app. Qed.

Lemma grouped_snoc (recs : list FuelRecord) (r : FuelRecord) :
  grouped (recs ++ [r]) = push_record (grouped recs) r.
Proof. unfold grouped. now rewrite fold_left_app. Qed.

Lemma plates_In (recs : list FuelRecord) (k : string) :
  In k (plates recs) <-> exists r, In r recs /\ plate_number r = k.
Proof.
  induction recs as [|r recs IH] using rev_ind.
  - simpl. split; [intros [] | intros [r [[] _]]].
  - rewrite plates_snoc, add_key_In, IH. split.
    + intros [->|[x [Hx Hk]]].
      * exists r. split; [apply in_or_app; right; now left | reflexivity].
      * exists x. split; [apply in_or_app; now left | exact Hk].
    + intros [x [Hx Hk]]. apply in_app_or in Hx. destruct Hx as [Hx|[->|[]]].
      * right. now exists x.
      * now left.
Qed.

Lemma plates_NoDup (recs : list FuelRecord) : NoDup (plates recs).
Proof.
  induction recs as [|r recs IH] using rev_ind; [constructor|].
  rewrite plates_snoc. now apply add_key_NoDup.
Qed.

Lemma filter_snoc_other (recs : list FuelRecord) (r : FuelRecord) (k : string) :
  k <> plate_number r -> filter (on_plate k) (recs ++ [r]) = filter (on_plate k) recs.
Proof.
  intros Hk. rewrite filter_app. simpl. unfold on_plate at 2.
  assert (E : String.eqb (plate_number r) k = false)
    by (apply String.eqb_neq; congruence).
  rewrite E. apply app_nil_r.
Qed.

Lemma filter_snoc_same (recs : list FuelRecord) (r : FuelRecord) :
  filter (on_plate (plate_number r)) (recs ++ [r])
  = filter (on_plate (plate_number r)) recs ++ [r].
Proof.
  rewrite filter_app. simpl. unfold on_plate at 2. now rewrite String.eqb_refl.
Qed.

Lemma push_record_partition (recs : list FuelRecord) (r : FuelRecord) (ks : list string) :
  NoDup ks ->
  (~ In (plate_number r) ks -> filter (on_plate (plate_number r)) recs = []) ->
  push_record (map (partition_of recs) ks) r
  = map (partition_of (recs ++ [r])) (add_key ks (plate_number r)).
Proof.
  induction 1 as [|k ks Hk Hks IH]; intros Hnew; simpl.
  - unfold partition_of. rewrite filter_snoc_same, Hnew; [reflexivity | intros []].
  - destruct (String.eqb k (plate_number r)) eqn:E.
    + apply String.eqb_eq in E. subst k. simpl. unfold partition_of at 2.
      rewrite filter_snoc_same. f_equal.
      apply map_ext_in. intros k' Hk'. unfold partition_of.
      rewrite filter_snoc_other; [reflexivity|]. intros ->. contradiction.
    + apply String.eqb_neq in E. simpl. unfold partition_of at 2.
      rewrite filter_snoc_other by exact E. f_equal.
      apply IH. intros Hnot. apply Hnew. intros [H|H]; [now apply E | contradiction].
Qed.

(** The entries of the grouping object: one per plate, each holding the
    records of that plate in input order. *)
Lemma grouped_partitions (recs : list FuelRecord) :
  grouped recs = map (partition_of recs) (plates recs).
Proof.
  induction recs as [|r recs IH] using rev_ind; [reflexivity|].
  rewrite grouped_snoc, plates_snoc, IH.
  apply push_record_partition; [apply plates_NoDup|].
  intros Hnot. apply ListFacts.filter_none. intros x Hx.
  unfold on_plate. apply String.eqb_neq. intros Hsame.
  apply Hnot, plates_In. now exists x.
Qed.

Lemma plates_permutation (recs recs' : list FuelRecord) :
  Permutation recs recs' -> Permutation (plates recs) (plates recs').
Proof.
  intros P. apply NoDup_Permutation; try apply plates_NoDup.
  intros k. rewrite !plates_In. split; intros [r [Hr Hk]]; exists r; split; trivial.
  - now apply (Permutation_in r P).
  - now apply (Permutation_in r (Permutation_sym P)).
Qed.

(** *** The two comparators *)

Lemma by_date_desc_flip (x y : FuelRecord) :
  by_date_desc y x = CompOpp (by_date_desc x y).
Proof. unfold by_date_desc. apply Z.compare_antisym. Qed.

Lemma by_date_desc_le (x y : FuelRecord) :
  SortFacts.le by_date_desc x y <-> (filling_date y <= filling_date x)%Z.
Proof. reflexivity. Qed.

Lemma by_date_desc_trans (x y z : FuelRecord) :
  SortFacts.le by_date_desc x y -> SortFacts.le by_date_desc y z ->
  SortFacts.le by_date_desc x z.
Proof. rewrite !by_date_desc_le. lia. Qed.

Lemma localeCompare_tie (a b : string) :
  localeCompare a b <> Gt -> localeCompare b a <> Gt -> localeCompare a b = Eq.
Proof.
  intros H1 H2. rewrite (localeCompare_flip a b) in H2.
  destruct (localeCompare a b); [reflexivity | now elim H2 | now elim H1].
Qed.

Lemma by_plate_flip (x y : GroupedRecord) : by_plate y x = CompOpp (by_plate x y).
Proof. apply localeCompare_flip. Qed.

Lemma by_plate_trans (x y z : GroupedRecord) :
  SortFacts.le by_plate x y -> SortFacts.le by_plate y z -> SortFacts.le by_plate x z.
Proof. apply localeCompare_trans. Qed.

(** The collation tells the plates of the list apart. *)
Definition collate_apart (ks : list string) : Prop :=
  forall a b, In a ks -> In b ks -> localeCompare a b = Eq -> a = b.

(** No two distinct plates of the records collate as equal. *)
Definition plates_collate_apart (recs : list FuelRecord) : Prop :=
  forall a b, In a recs -> In b recs ->
              localeCompare (plate_number a) (plate_number b) = Eq ->
              plate_number a = plate_number b.

Lemma plates_collate_apart_keys (recs : list FuelRecord) :
  plates_collate_apart recs -> collate_apart (plates recs).
Proof.
  intros H a b Ha Hb E. apply plates_In in Ha, Hb.
  destruct Ha as [ra [Hra <-]], Hb as [rb [Hrb <-]]. now apply H.
Qed.

(** *** What the output shows of the order *)

(** A summary without its two sums: the plate, the records in output
    order, their count and the odometer extremes. *)
Definition order_view (g : GroupedRecord)
  : string * list FuelRecord * nat * option float * option float :=
  (group_plate_number g, records g, recordCount g, latestOdometer g, firstOdometer g).

Definition view_plate (v : string * list FuelRecord * nat * option float * option float)
  : string := fst (fst (fst (fst v))).

Definition by_view_plate (v w : string * list FuelRecord * nat * option float * option float)
  : comparison := localeCompare (view_plate v) (view_plate w).

(** No two distinct records of one vehicle carry the same fill date. *)
Definition distinct_fills (recs : list FuelRecord) : Prop :=
  forall a b, In a recs -> In b recs ->
              plate_number a = plate_number b -> filling_date a = filling_date b -> a = b.

Lemma sorted_partition_permutation (recs recs' : list FuelRecord) (k : string) :
  Permutation recs recs' -> distinct_fills recs ->
  Js.sort by_date_desc (filter (on_plate k) recs')
  = Js.sort by_date_desc (filter (on_plate k) recs).
Proof.
  intros P Hd.
  apply (SortFacts.sort_permutation_eq by_date_desc by_date_desc_flip by_date_desc_trans).
  - now apply ListFacts.filter_permutation.
  - intros x y Hx Hy Hxy Hyx.
    apply filter_In in Hx, Hy. destruct Hx as [Hx Kx], Hy as [Hy Ky].
    unfold on_plate in Kx, Ky. apply String.eqb_eq in Kx, Ky.
    rewrite by_date_desc_le in Hxy, Hyx.
    apply Hd; [assumption | assumption | congruence | lia].
Qed.

Lemma view_permutation (recs recs' : list FuelRecord) (k : string) :
  Permutation recs recs' -> distinct_fills recs ->
  order_view (summarize (partition_of recs' k)) = order_view (summarize (partition_of recs k)).
Proof.
  intros P Hd. unfold order_view, summarize, partition_of.
  cbn [group_plate_number records recordCount latestOdometer firstOdometer].
  rewrite (sorted_partition_permutation recs recs' k P Hd).
  rewrite (Permutation_length (ListFacts.filter_permutation (on_plate k) recs recs' P)).
  reflexivity.
Qed.

Lemma summarize_plate (recs : list FuelRecord) (k : string) :
  group_plate_number (summarize (partition_of recs k)) = k.
Proof. reflexivity. Qed.

(** The enumeration order of the grouping object does not reach the
    output: the final sort puts any arrangement of the entries of plates
    that collate apart in the same order. *)
Lemma sort_by_plate_arrangement (f : string -> GroupedRecord) (ks ks' : list string) :
  (forall k, group_plate_number (f k) = k) ->
  collate_apart ks ->
  Permutation ks ks' ->
  Js.sort by_plate (map f ks') = Js.sort by_plate (map f ks).
Proof.
  intros Hf Hapart P.
  apply (SortFacts.sort_permutation_eq by_plate by_plate_flip by_plate_trans).
  - now apply Permutation_map.
  - intros x y Hx Hy Hxy Hyx.
    apply in_map_iff in Hx, Hy. destruct Hx as [k1 [<- Hk1]], Hy as [k2 [<- Hk2]].
    unfold SortFacts.le, by_plate in Hxy, Hyx. rewrite !Hf in Hxy, Hyx.
    now rewrite (Hapart k1 k2 Hk1 Hk2 (localeCompare_tie k1 k2 Hxy Hyx)).
Qed.

Lemma groupRecordsByPlate_partitions (recs : list FuelRecord) :
  groupRecordsByPlate recs
  = Js.sort by_plate (map (fun k => summarize (partition_of recs k)) (plates recs)).
Proof. unfold groupRecordsByPlate. now rewrite grouped_partitions, map_map. Qed.

(** Reordering the input without reordering the records of any one vehicle
    leaves the whole output, sums included, unchanged, when the collation
    tells the plates apart. *)
Lemma groupRecordsByPlate_interleaving (recs recs' : list FuelRecord) :
  Permutation recs recs' ->
  plates_collate_apart recs ->
  (forall k, filter (on_plate k) recs' = filter (on_plate k) recs) ->
  groupRecordsByPlate recs' = groupRecordsByPlate recs.
Proof.
  intros P Hapart Hsame. rewrite !groupRecordsByPlate_partitions.
  rewrite (map_ext (fun k => summarize (partition_of recs' k))
                   (fun k => summarize (partition_of recs k))).
  - apply sort_by_plate_arrangement; [intros k; apply summarize_plate | |].
    + now apply plates_collate_apart_keys.
    + now apply plates_permutation.
  - intros k. unfold partition_of. now rewrite Hsame.
Qed.

(** C3 amended: when no two distinct records of one vehicle share a fill
    date and no two distinct plates collate as equal, permuting the input
    changes neither the order of the partitions nor, within each partition,
    the order of its records, their count or the odometer extremes.
    (Records of one vehicle with the same fill date, and partitions whose
    plates collate as equal, keep their input order; the two sums are
    accumulated in input order.) *)
Theorem C3_order_independent_without_ties :
  forall recs recs' : list FuelRecord,
    Permutation recs recs' ->
    distinct_fills recs ->
    plates_collate_apart recs ->
    map order_view (groupRecordsByPlate recs') = map order_view (groupRecordsByPlate recs).
Proof.
  intros recs recs' P Hd Hapart.
  rewrite !groupRecordsByPlate_partitions.
  rewrite !(SortFacts.sort_map order_view by_view_plate by_plate) by reflexivity.
  rewrite !map_map.
  rewrite (map_ext (fun k => order_view (summarize (partition_of recs' k)))
                   (fun k => order_view (summarize (partition_of recs k))))
    by (intros k; now apply view_permutation).
  apply (SortFacts.sort_permutation_eq by_view_plate).
  - intros x y. apply localeCompare_flip.
  - intros x y z. apply localeCompare_trans.
  - apply Permutation_map. now apply plates_permutation.
  - intros x y Hx Hy Hxy Hyx.
    apply in_map_iff in Hx, Hy. destruct Hx as [k1 [<- Hk1]], Hy as [k2 [<- Hk2]].
    unfold SortFacts.le, by_view_plate in Hxy, Hyx.
    change (view_plate (order_view (summarize (partition_of recs k1)))) with k1 in *.
    change (view_plate (order_view (summarize (partition_of recs k2)))) with k2 in *.
    now rewrite (plates_collate_apart_keys recs Hapart k1 k2 Hk1 Hk2
                   (localeCompare_tie k1 k2 Hxy Hyx)).
Qed.

End Collation.

(** *** Two comparators to run the function with *)

(** The order of the character codes: one consistent comparator, and one
    that tells all strings apart. *)
Definition codeUnitCompare (a b : string) : comparison := String.compare a b.

Lemma codeUnitCompare_flip (a b : string) :
  codeUnitCompare b a = CompOpp (codeUnitCompare a b).
Proof. unfold codeUnitCompare. apply String.compare_antisym. Qed.

Lemma codeUnitCompare_trans (a b c : string) :
  codeUnitCompare a b <> Gt -> codeUnitCompare b c <> Gt -> codeUnitCompare a c <> Gt.
Proof. apply SortFacts.string_compare_trans. Qed.

(** A comparator that, as collations do, ignores the control characters
    below the space (the white space [trim] knows apart). *)
Definition is_ignorable (c : ascii) : bool :=
  (nat_of_ascii c <? 32) && negb (Js.is_white c).

Fixpoint without_ignorables (s : string) : string :=
  match s with
  | EmptyString => EmptyString
  | String c r => if is_ignorable c then without_ignorables r
                  else String c (without_ignorables r)
  end.

Definition ignoringControls (a b : string) : comparison :=
  String.compare (without_ignorables a) (without_ignorables b).

Lemma ignoringControls_flip (a b : string) :
  ignoringControls b a = CompOpp (ignoringControls a b).
Proof. unfold ignoringControls. apply String.compare_antisym. Qed.

Lemma ignoringControls_trans (a b c : string) :
  ignoringControls a b <> Gt -> ignoringControls b c <> Gt -> ignoringControls a c <> Gt.
Proof. apply SortFacts.string_compare_trans. Qed.

(** The example of the specification: dates as days since the epoch. *)
Example groupRecordsByPlate_example :
  map (fun g => (group_plate_number g, map record_id (records g), recordCount g,
                 totalFuel g, averageFuel g))
      (groupRecordsByPlate codeUnitCompare [fill 1 "A" 19723 10; fill 2 "A" 19754 20; fill 3 "B" 19737 5])
  = [("A", [2; 1], 2, 30%float, 15%float); ("B", [3], 1, 5%float, 5%float)].
Proof. vm_compute. reflexivity. Qed.

(** Two fills of one vehicle on the same day, in both input orders. *)
Definition same_day : list FuelRecord := [fill 1 "A" 19723 10; fill 2 "A" 19723 20].
Definition same_day_swapped : list FuelRecord := [fill 2 "A" 19723 20; fill 1 "A" 19723 10].

(** With one plate the collation plays no part: the two orders come out as
    they went in, whatever [localeCompare] answers. *)
Lemma same_day_any_collation (localeCompare : string -> string -> comparison) :
  map (fun g => map record_id (records g)) (groupRecordsByPlate localeCompare same_day)
  = [[1; 2]] /\
  map (fun g => map record_id (records g))
      (groupRecordsByPlate localeCompare same_day_swapped)
  = [[2; 1]].
Proof. split; reflexivity. Qed.

(** C3, as stated, fails: the sort by fill date is stable, so two records of
    one vehicle with the same fill date come out in their input order, and
    a permutation that swaps them changes the output. *)
Lemma C3_same_date_records_keep_input_order :
  Permutation same_day same_day_swapped /\
  map (fun g => map record_id (records g)) (groupRecordsByPlate codeUnitCompare same_day)
  = [[1; 2]] /\
  map (fun g => map record_id (records g))
      (groupRecordsByPlate codeUnitCompare same_day_swapped)
  = [[2; 1]] /\
  groupRecordsByPlate codeUnitCompare same_day
  <> groupRecordsByPlate codeUnitCompare same_day_swapped.
Proof.
  split; [apply perm_swap|]. split; [reflexivity|]. split; [reflexivity|].
  intros H. apply (f_equal (map (fun g => map record_id (records g)))) in H.
  vm_compute in H. discriminate H.
Qed.

(** The plates [A] and [A] followed by the control character of code 1. *)
Definition plate_A : string := "A".
Definition plate_A_control : string := String "A"%char (String (ascii_of_nat 1) "").

(** Under a collation that ignores control characters the two plates tie,
    and their partitions come out in input order. *)
Lemma collation_ties_keep_input_order :
  plate_A <> plate_A_control /\
  ignoringControls plate_A plate_A_control = Eq /\
  map (fun g => map record_id (records g))
      (groupRecordsByPlate ignoringControls
         [fill 1 plate_A 19723 10; fill 2 plate_A_control 19723 20])
  = [[1]; [2]] /\
  map (fun g => map record_id (records g))
      (groupRecordsByPlate ignoringControls
         [fill 2 plate_A_control 19723 20; fill 1 plate_A 19723 10])
  = [[2]; [1]].
Proof. repeat split. discriminate. Qed.

(** Three fills of 0.1, 0.2 and 0.3 litres, on three days. *)
Definition tenths : list FuelRecord :=
  [fill 1 "A" 19723 (1 / 10); fill 2 "A" 19724 (2 / 10); fill 3 "A" 19725 (3 / 10)].

(** The sums are doubles added in input order: reversing the input changes
    the total of the three fills in its last place. *)
Lemma sums_follow_input_order :
  Permutation tenths (rev tenths) /\
  map totalFuel (groupRecordsByPlate codeUnitCompare tenths)
  <> map totalFuel (groupRecordsByPlate codeUnitCompare (rev tenths)).
Proof.
  split; [apply Permutation_rev|].
  intros H.
  apply (f_equal (fun l => (hd 0%float l
                            =? hd 0%float (map totalFuel
                                               (groupRecordsByPlate codeUnitCompare
                                                                    (rev tenths))))%float))
    in H.
  vm_compute in H. discriminate H.
Qed.

Definition three_fills : list FuelRecord :=
  [fill 1 "A" 19723 10; fill 2 "A" 19754 20; fill 3 "B" 19737 5].

Definition three_fills_shuffled : list FuelRecord :=
  [fill 3 "B" 19737 5; fill 2 "A" 19754 20; fill 1 "A" 19723 10].

Lemma C3_order_independent_without_ties_witness :
  map order_view (groupRecordsByPlate codeUnitCompare three_fills_shuffled)
  = map order_view (groupRecordsByPlate codeUnitCompare three_fills).
Proof.
  apply (C3_order_independent_without_ties codeUnitCompare
           codeUnitCompare_flip codeUnitCompare_trans three_fills three_fills_shuffled).
  - unfold three_fills, three_fills_shuffled.
    eapply perm_trans; [apply perm_skip, perm_swap|].
    eapply perm_trans; [apply perm_swap|].
    apply perm_skip, perm_swap.
  - intros a b Ha Hb Hp Hdate. simpl in Ha, Hb.
    destruct Ha as [<-|[<-|[<-|[]]]]; destruct Hb as [<-|[<-|[<-|[]]]];
      try reflexivity; try discriminate Hp; discriminate Hdate.
  - intros a b Ha Hb Htie. simpl in Ha, Hb.
    destruct Ha as [<-|[<-|[<-|[]]]]; destruct Hb as [<-|[<-|[<-|[]]]];
      try reflexivity; discriminate Htie.
Defined.

End Aggregator.

(* ================================================================== *)
(** ** More on the client sign-in: outcomes and the keypad *)
(* ================================================================== *)

Module LoginFacts.
Import Store Login.

Lemma find_some {A : Type} (p : A -> bool) (l : list A) (x : A) :
  Js.find p l = Some x -> In x l /\ p x = true.
Proof.
  induction l as [|y r IH]; simpl; [discriminate|].
  destruct (p y) eqn:E.
  - intros H. injection H as <-. split; [now left | exact E].
  - intros H. destruct (IH H) as [Hin Hp]. split; [now right | exact Hp].
Qed.

Lemma toUpperCase_empty (s : string) :
  String.eqb (Js.toUpperCase s) "" = String.eqb s "".
Proof. destruct s; reflexivity. Qed.

(** The plate the form works with is already in normal form. *)
Lemma plateUpper_normal (plateNumber : string) :
  Js.toUpperCase (Js.trim (Js.toUpperCase (Js.trim plateNumber)))
  = Js.toUpperCase (Js.trim plateNumber).
Proof.
  now rewrite AdminUsers.trim_upper, AdminUsers.trim_idem, AdminUsers.toUpperCase_idem.
Qed.

(** A welcomed account is a row of the directory. *)
Lemma welcome_in_directory (db : Db) (fetchError : option string)
      (plateNumber enteredCode : string) (u : AppUser) (plateUpper : string) :
  outcome (handleSignIn db fetchError plateNumber enteredCode) = Welcome u plateUpper ->
  In u (app_users db).
Proof.
  unfold handleSignIn.
  destruct (String.eqb (Js.trim plateNumber) ""); [discriminate|].
  destruct (negb (String.length enteredCode =? 4)); [discriminate|].
  destruct fetchError as [msg|]; [discriminate|].
  destruct (select_by_role db user) as [|x xs] eqn:Hsel; [discriminate|].
  destruct (Js.find _ (x :: xs)) as [m|] eqn:Hfind; [|discriminate].
  destruct (signInWithPassword db (email m) enteredCode); [|discriminate].
  cbn [outcome]. intros H. injection H as <- _.
  apply find_some in Hfind. destruct Hfind as [Hin _].
  rewrite <- Hsel in Hin. unfold select_by_role in Hin. now apply filter_In in Hin.
Qed.

(** X1: a sign-in only ever succeeds for a directory account of role user
    that is assigned the normalized plate and whose credential verifies the
    code; that account's is the only credential tried and the code is kept. *)
Theorem welcome_only_verified_assigned_user :
  forall (db : Db) (fetchError : option string) (plateNumber enteredCode : string)
         (u : AppUser) (plateUpper : string),
    outcome (handleSignIn db fetchError plateNumber enteredCode) = Welcome u plateUpper ->
    In u (app_users db) /\
    role u = user /\
    plateUpper = Js.toUpperCase (Js.trim plateNumber) /\
    In plateUpper (assigned_vehicles u) /\
    signInWithPassword db (email u) enteredCode = true /\
    signIn_calls (handleSignIn db fetchError plateNumber enteredCode)
    = [(email u, enteredCode)] /\
    code_cleared (handleSignIn db fetchError plateNumber enteredCode) = false.
Proof.
  intros db fetchError plateNumber enteredCode u plateUpper.
  unfold handleSignIn.
  destruct (String.eqb (Js.trim plateNumber) ""); [discriminate|].
  destruct (negb (String.length enteredCode =? 4)); [discriminate|].
  destruct fetchError as [msg|]; [discriminate|].
  destruct (select_by_role db user) as [|x xs] eqn:Hsel; [discriminate|].
  destruct (Js.find _ (x :: xs)) as [m|] eqn:Hfind; [|discriminate].
  destruct (signInWithPassword db (email m) enteredCode) eqn:Hsign; [|discriminate].
  cbn [outcome signIn_calls code_cleared]. intros H. injection H as <- <-.
  apply find_some in Hfind. destruct Hfind as [Hin Hplate].
  rewrite <- Hsel in Hin. unfold select_by_role in Hin. apply filter_In in Hin.
  destruct Hin as [Hin Hrole].
  repeat split; try assumption.
  - destruct (role m); [discriminate Hrole | reflexivity].
  - now apply Policy.includes_In.
Qed.

Lemma welcome_only_verified_assigned_user_witness :
  In "ABC-123" (assigned_vehicles (mkAppUser 1 "first@fleet.et" "First" user ["ABC-123"] None)) /\
  signInWithPassword shared_plate_db "first@fleet.et" "1111" = true.
Proof.
  destruct (welcome_only_verified_assigned_user shared_plate_db None " abc-123" "1111"
              (mkAppUser 1 "first@fleet.et" "First" user ["ABC-123"] None) "ABC-123"
              eq_refl)
    as [_ [_ [_ [Hplate [Hsign _]]]]].
  split; [exact Hplate | exact Hsign].
Defined.

(** X2: the form normalizes the plate before anything else: a plate typed in
    any letter case and with surrounding white space gives the same result
    as its trimmed uppercase form. *)
Theorem handleSignIn_plate_normalized :
  forall (db : Db) (fetchError : option string) (plateNumber enteredCode : string),
    handleSignIn db fetchError plateNumber enteredCode
    = handleSignIn db fetchError (Js.toUpperCase (Js.trim plateNumber)) enteredCode.
Proof.
  intros db fetchError plateNumber enteredCode. unfold handleSignIn.
  rewrite plateUpper_normal.
  rewrite AdminUsers.trim_upper, AdminUsers.trim_idem, toUpperCase_empty.
  reflexivity.
Qed.

End LoginFacts.

Module Keypad.
Import Store.

(** The ten number buttons; each sends [number.toString()] or ['0']. *)
Inductive Key := K0 | K1 | K2 | K3 | K4 | K5 | K6 | K7 | K8 | K9.

Definition key_label (k : Key) : string :=
  match k with
  | K0 => "0" | K1 => "1" | K2 => "2" | K3 => "3" | K4 => "4"
  | K5 => "5" | K6 => "6" | K7 => "7" | K8 => "8" | K9 => "9"
  end.

(** [s.slice(0, -1)]. *)
Fixpoint slice_off_last (s : string) : string :=
  match s with
  | EmptyString => EmptyString
  | String c EmptyString => EmptyString
  | String c r => String c (slice_off_last r)
  end.

(** [handleNumberClick(number)], on the state [enteredCode], [isSubmitting]. *)
Definition handleNumberClick (enteredCode : string) (isSubmitting : bool)
           (number : string) : string :=
  if (String.length enteredCode <? 4) && negb isSubmitting
  then enteredCode ++ number
  else enteredCode.

Definition handleClear (enteredCode : string) : string := "".

Definition handleBackspace (enteredCode : string) : string :=
  slice_off_last enteredCode.

Inductive Event :=
| Press (k : Key)
| Clear
| Backspace.

Definition step (enteredCode : string) (ev : bool * Event) : string :=
  match snd ev with
  | Press k => handleNumberClick enteredCode (fst ev) (key_label k)
  | Clear => handleClear enteredCode
  | Backspace => handleBackspace enteredCode
  end.

(** The code after a series of button events, each with the value of
    [isSubmitting] when it happened; the code starts empty. *)
Definition typed (events : list (bool * Event)) : string :=
  fold_left step events "".

(** The condition of the effect that calls [handleSignIn] by itself. *)
Definition auto_submits (plateNumber enteredCode : string) : bool :=
  (String.length enteredCode =? 4) && negb (String.eqb (Js.trim plateNumber) "").

Fixpoint all_digits (s : string) : bool :=
  match s with
  | EmptyString => true
  | String c r => Js.is_digit c && all_digits r
  end.

Lemma all_digits_app (s t : string) :
  all_digits (s ++ t) = all_digits s && all_digits t.
Proof.
  induction s as [|c r IH]; simpl; [reflexivity|].
  now rewrite IH, andb_assoc.
Qed.

Lemma length_app (s t : string) :
  String.length (s ++ t) = String.length s + String.length t.
Proof. induction s as [|c r IH]; simpl; congruence. Qed.

Lemma slice_off_last_digits (s : string) :
  all_digits s = true -> all_digits (slice_off_last s) = true.
Proof.
  induction s as [|c r IH]; [reflexivity|].
  destruct r as [|d r']; [reflexivity|].
  change (slice_off_last (String c (String d r')))
    with (String c (slice_off_last (String d r'))).
  cbn [all_digits] in *. intros H. apply andb_true_iff in H. destruct H as [Hc Hr].
  rewrite Hc. now apply IH.
Qed.

Lemma slice_off_last_length (s : string) :
  String.length (slice_off_last s) = String.length s - 1.
Proof.
  induction s as [|c r IH]; [reflexivity|].
  destruct r as [|d r']; [reflexivity|].
  change (slice_off_last (String c (String d r')))
    with (String c (slice_off_last (String d r'))).
  cbn [String.length] in *. lia.
Qed.

Lemma slice_off_last_app (s : string) (c : ascii) :
  slice_off_last (s ++ String c "") = s.
Proof.
  induction s as [|a r IH]; [reflexivity|].
  cbn [append]. destruct (r ++ String c "")%string as [|d t] eqn:E.
  - destruct r; discriminate E.
  - change (slice_off_last (String a (String d t)))
      with (String a (slice_off_last (String d t))).
    now rewrite IH.
Qed.

Lemma step_invariant (code : string) (ev : bool * Event) :
  all_digits code = true /\ String.length code <= 4 ->
  all_digits (step code ev) = true /\ String.length (step code ev) <= 4.
Proof.
  intros [Hd Hl]. destruct ev as [submitting [k| |]]; unfold step; cbn [fst snd].
  - unfold handleNumberClick.
    destruct (String.length code <? 4) eqn:E; cbn [andb]; [|now split].
    destruct submitting; cbn [negb]; [now split|].
    apply Nat.ltb_lt in E. rewrite all_digits_app, length_app, Hd.
    split; [destruct k; reflexivity | destruct k; cbn [key_label String.length]; lia].
  - split; [reflexivity | cbn; lia].
  - unfold handleBackspace. split; [now apply slice_off_last_digits|].
    rewrite slice_off_last_length. lia.
Qed.

Lemma typed_invariant (events : list (bool * Event)) :
  all_digits (typed events) = true /\ String.length (typed events) <= 4.
Proof.
  unfold typed.
  assert (H : forall code, all_digits code = true /\ String.length code <= 4 ->
                           all_digits (fold_left step events code) = true /\
                           String.length (fold_left step events code) <= 4).
  { induction events as [|ev evs IH]; intros code Hc; [exact Hc|].
    cbn [fold_left]. apply IH. now apply step_invariant. }
  apply H. split; [reflexivity | cbn; lia].
Qed.

Lemma four_digits (code : string) :
  all_digits code = true -> String.length code = 4 -> Js.test_4digits code = true.
Proof.
  destruct code as [|a [|b [|c [|d [|e r]]]]]; cbn [String.length]; try discriminate.
  cbn [all_digits Js.test_4digits]. intros H _. now rewrite andb_true_r, !andb_assoc in H.
Qed.

(** X3: whatever is pressed on the keypad, the entered code is made of
    digits and never exceeds four characters; so whenever the form signs in
    by itself, the code it sends matches [/^\d{4}$/] and passes the form's
    own checks. *)
Theorem keypad_code_is_four_digits :
  forall (events : list (bool * Event)) (plateNumber : string),
    all_digits (typed events) = true /\
    String.length (typed events) <= 4 /\
    (auto_submits plateNumber (typed events) = true ->
     Js.test_4digits (typed events) = true /\
     Login.well_formed plateNumber (typed events)).
Proof.
  intros events plateNumber.
  destruct (typed_invariant events) as [Hd Hl].
  split; [exact Hd|]. split; [exact Hl|].
  unfold auto_submits. intros H. apply andb_true_iff in H. destruct H as [H4 Hp].
  apply Nat.eqb_eq in H4. apply negb_true_iff, String.eqb_neq in Hp.
  split; [now apply four_digits | now split].
Qed.

Lemma keypad_code_is_four_digits_witness :
  Js.test_4digits
    (typed [(false, Press K1); (false, Press K9); (false, Backspace); (false, Press K2);
            (false, Press K3); (false, Press K4); (false, Press K5)]) = true.
Proof.
  destruct (keypad_code_is_four_digits
              [(false, Press K1); (false, Press K9); (false, Backspace); (false, Press K2);
               (false, Press K3); (false, Press K4); (false, Press K5)] "AA-1")
    as [_ [_ H]].
  apply H. reflexivity.
Defined.

(** X4: backspace undoes a number button: while the form is idle and fewer
    than four digits are entered, pressing a number and then backspace gives
    the code back; once four digits are entered a number button does
    nothing. *)
Theorem backspace_undoes_number :
  forall (enteredCode : string) (k : Key),
    (String.length enteredCode < 4 ->
     handleBackspace (handleNumberClick enteredCode false (key_label k)) = enteredCode) /\
    (4 <= String.length enteredCode ->
     handleNumberClick enteredCode false (key_label k) = enteredCode).
Proof.
  intros enteredCode k. unfold handleBackspace, handleNumberClick. split; intros H.
  - apply Nat.ltb_lt in H. rewrite H. cbn [andb negb].
    destruct k; apply slice_off_last_app.
  - apply Nat.ltb_ge in H. now rewrite H.
Qed.

Lemma backspace_undoes_number_witness :
  handleBackspace (handleNumberClick "12" false (key_label K7)) = "12" /\
  handleNumberClick "1234" false (key_label K7) = "1234".
Proof.
  destruct (backspace_undoes_number "12" K7) as [Hundo _].
  destruct (backspace_undoes_number "1234" K7) as [_ Hfull].
  split; [apply Hundo; cbn; lia | apply Hfull; cbn; lia].
Defined.

End Keypad.

(* ================================================================== *)
(** ** The [admin-users] function: the gate and the other two actions *)
(* ================================================================== *)

Module AdminEndpoint.
Import Store AdminUsers.

(** [s.replace(pat, rep)] with a string pattern: the first occurrence. *)
Fixpoint replace_first (pat rep s : string) : string :=
  if String.prefix pat s
  then rep ++ String.substring (String.length pat) (String.length s - String.length pat) s
  else match s with
       | EmptyString => EmptyString
       | String c r => String c (replace_first pat rep r)
       end.

(** [auth.admin.updateUserById(uid, {password})]. *)
Definition updateUserById (db : Db) (uid : uuid) (pw : string) : option string * Db :=
  if existsb (fun a => auth_id a =? uid) (auth_users db)
  then (None,
        mkDb (map (fun a => if auth_id a =? uid
                            then mkAuthUser (auth_id a) (auth_email a) pw else a)
                  (auth_users db))
             (app_users db))
  else (Some "User not found", db).

(** [.from('app_users').delete().eq('id', uid)]; [fault] is the error of a
    refusal by the database, if any. *)
Definition delete_row (db : Db) (fault : option string) (uid : uuid) : option string * Db :=
  match fault with
  | Some msg => (Some msg, db)
  | None => (None, mkDb (auth_users db) (filter (fun u => negb (id u =? uid)) (app_users db)))
  end.

(** The branch [method === 'POST' && action === 'reset-password']. *)
Definition reset_password (db : Db) (userId : uuid) (newPassword : string) : Response * Db :=
  if negb (Js.test_4digits newPassword)
  then (mkResponse 400 (ErrorBody "Password must be exactly 4 digits"), db)
  else
    match updateUserById db userId newPassword with
    | (Some msg, db1) => (mkResponse 400 (ErrorBody msg), db1)
    | (None, db1) =>
        (mkResponse 200
           (SuccessBody ("Password reset successfully. New password: " ++ newPassword)),
         db1)
    end.

(** The branch [method === 'DELETE' && action === 'delete-user']. *)
Definition delete_user (db : Db) (fault : option string) (userId : uuid) : Response * Db :=
  match deleteUser db userId with
  | (Some msg, db1) => (mkResponse 400 (ErrorBody msg), db1)
  | (None, db1) =>
      match delete_row db1 fault userId with
      | (Some msg, db2) => (mkResponse 400 (ErrorBody msg), db2)
      | (None, db2) => (mkResponse 200 (SuccessBody "User deleted successfully"), db2)
      end
  end.

(** What a request asks for: its method, the last segment of its path and
    its JSON body. *)
Inductive Operation :=
| Preflight                                                 (* OPTIONS *)
| PostCreateUser (req : CreateUserRequest)                  (* POST .../create-user *)
| PostResetPassword (userId : uuid) (newPassword : string)  (* POST .../reset-password *)
| DeleteDeleteUser (userId : uuid)                          (* DELETE .../delete-user *)
| OtherAction.

Inductive Reply :=
| PreflightOk                    (* new Response('ok') *)
| Json (r : Response).

Section Serve.

(** [supabaseAdmin.auth.getUser(token)]: the identity a token stands for. *)
Variable getUser : string -> option AuthUser.

(** The handler: [authorization] is the request's [Authorization] header
    (an empty one counts as none: [!authHeader]), [fault] the error of a
    refusal of the directory statement, if any. *)
Definition serve (db : Db) (fault : option string) (authorization : option string)
           (op : Operation) : Reply * Db :=
  match op with
  | Preflight => (PreflightOk, db)
  | _ =>
      match authorization with
      | None => (Json (mkResponse 401 (ErrorBody "No authorization header")), db)
      | Some authHeader =>
          if String.eqb authHeader ""
          then (Json (mkResponse 401 (ErrorBody "No authorization header")), db)
          else
          let token := replace_first "Bearer " "" authHeader in
          match getUser token with
          | None => (Json (mkResponse 401 (ErrorBody "Invalid token")), db)
          | Some caller =>
              match single_by_email db (auth_email caller) with
              | Some appUser =>
                  match role appUser with
                  | admin =>
                      match op with
                      | PostCreateUser req =>
                          let run := create_user db (auth_id caller) fault req in
                          (Json (response run), db_after run)
                      | PostResetPassword userId newPassword =>
                          let (r, db1) := reset_password db userId newPassword in
                          (Json r, db1)
                      | DeleteDeleteUser userId =>
                          let (r, db1) := delete_user db fault userId in (Json r, db1)
                      | _ => (Json (mkResponse 400 (ErrorBody "Invalid action")), db)
                      end
                  | user => (Json (mkResponse 403 (ErrorBody "Admin access required")), db)
                  end
              | None => (Json (mkResponse 403 (ErrorBody "Admin access required")), db)
              end
          end
      end
  end.

(** The caller is an administrator: the header is not empty and its token
    stands for an identity whose e-mail exactly one directory row carries,
    with role admin. *)
Definition admin_caller (db : Db) (authorization : option string) : Prop :=
  exists authHeader caller appUser,
    authorization = Some authHeader /\
    authHeader <> "" /\
    getUser (replace_first "Bearer " "" authHeader) = Some caller /\
    single_by_email db (auth_email caller) = Some appUser /\
    role appUser = admin.

(** X5: nothing in the backend changes unless the caller is an
    administrator: for every operation, a request whose caller is not one is
    answered 401 or 403 (or is the preflight) and leaves both tables as they
    were. *)
Theorem serve_changes_nothing_without_admin :
  forall (db : Db) (fault : option string) (authorization : option string)
         (op : Operation),
    ~ admin_caller db authorization ->
    snd (serve db fault authorization op) = db /\
    (fst (serve db fault authorization op) = PreflightOk \/
     exists msg, fst (serve db fault authorization op) = Json (mkResponse 401 (ErrorBody msg)) \/
                 fst (serve db fault authorization op) = Json (mkResponse 403 (ErrorBody msg))).
Proof.
  intros db fault authorization op Hnot.
  assert (Hpre : op = Preflight \/ op <> Preflight)
    by (destruct op; (now left) || (right; discriminate)).
  destruct Hpre as [->|Hop]; [split; [reflexivity | now left]|].
  assert (Hgate :
            snd (serve db fault authorization op) = db /\
            exists msg,
              fst (serve db fault authorization op) = Json (mkResponse 401 (ErrorBody msg)) \/
              fst (serve db fault authorization op) = Json (mkResponse 403 (ErrorBody msg))).
  { destruct authorization as [authHeader|].
    2:{ destruct op; try (now elim Hop); (split; [reflexivity | eexists; left; reflexivity]). }
    destruct (String.eqb authHeader "") eqn:Hempty.
    1:{ destruct op; try (now elim Hop); cbn [serve]; rewrite Hempty;
          (split; [reflexivity | eexists; left; reflexivity]). }
    destruct (getUser (replace_first "Bearer " "" authHeader)) as [caller|] eqn:Huser.
    2:{ destruct op; try (now elim Hop); cbn [serve]; rewrite Hempty, Huser;
          (split; [reflexivity | eexists; left; reflexivity]). }
    destruct (single_by_email db (auth_email caller)) as [appUser|] eqn:Hrow.
    2:{ destruct op; try (now elim Hop); cbn [serve]; rewrite Hempty, Huser, Hrow;
          (split; [reflexivity | eexists; right; reflexivity]). }
    destruct (role appUser) eqn:Hrole.
    - exfalso. apply Hnot. exists authHeader, caller, appUser.
      apply String.eqb_neq in Hempty. now repeat split.
    - destruct op; try (now elim Hop); cbn [serve]; rewrite Hempty, Huser, Hrow, Hrole;
        (split; [reflexivity | eexists; right; reflexivity]). }
  destruct Hgate as [Hdb Hresp]. split; [exact Hdb | now right].
Qed.

End Serve.

(** A token table for the examples. *)
Definition fleet_tokens (token : string) : option AuthUser :=
  if String.eqb token "admin-token" then Some (mkAuthUser 1 "admin@admin.com" "s3cret")
  else if String.eqb token "abebe-token" then Some (mkAuthUser 2 "abebe@fleet.et" "1234")
  else None.

Example serve_admin_creates :
  snd (serve fleet_tokens fleet_db None (Some "Bearer admin-token")
             (PostCreateUser kebede_request))
  = db_after (create_user fleet_db 1 None kebede_request).
Proof. reflexivity. Qed.

Lemma serve_changes_nothing_without_admin_witness :
  snd (serve fleet_tokens fleet_db None (Some "Bearer abebe-token") (DeleteDeleteUser 1))
  = fleet_db.
Proof.
  apply (serve_changes_nothing_without_admin fleet_tokens fleet_db None
           (Some "Bearer abebe-token") (DeleteDeleteUser 1)).
  intros [authHeader [caller [appUser [Hh [_ [Hu [Hrow Hrole]]]]]]].
  injection Hh as <-. vm_compute in Hu. injection Hu as <-.
  vm_compute in Hrow. injection Hrow as <-. discriminate Hrole.
Defined.

End AdminEndpoint.

(* ================================================================== *)
(** ** The account lifecycle: reset, delete, and how the steps compose *)
(* ================================================================== *)

Module Lifecycle.
Import Store AdminUsers AdminEndpoint.

(** The credential store holds the identity. *)
Definition has_identity (db : Db) (uid : uuid) : bool :=
  existsb (fun a => auth_id a =? uid) (auth_users db).

Definition set_password (uid : uuid) (pw : string) (a : AuthUser) : AuthUser :=
  if auth_id a =? uid then mkAuthUser (auth_id a) (auth_email a) pw else a.


Lemma set_password_email (uid : uuid) (pw : string) (a : AuthUser) :
  auth_email (set_password uid pw a) = auth_email a.
Proof. unfold set_password. now destruct (auth_id a =? uid). Qed.

Lemma reset_password_cases (db : Db) (uid : uuid) (pw : string) :
  reset_password db uid pw =
  if negb (Js.test_4digits pw)
  then (mkResponse 400 (ErrorBody "Password must be exactly 4 digits"), db)
  else if has_identity db uid
       then (mkResponse 200 (SuccessBody ("Password reset successfully. New password: " ++ pw)),
             mkDb (map (set_password uid pw) (auth_users db)) (app_users db))
       else (mkResponse 400 (ErrorBody "User not found"), db).
Proof.
  unfold reset_password, updateUserById, has_identity.
  destruct (negb (Js.test_4digits pw)); [reflexivity|].
  destruct (existsb _ _); reflexivity.
Qed.


Lemma signIn_after_set_password (l : list AuthUser) (a : AuthUser) (uid : uuid)
      (pw pw' : string) :
  NoDup (map auth_email l) -> In a l -> auth_id a = uid ->
  existsb (fun x => String.eqb (auth_email x) (auth_email a) && String.eqb (auth_password x) pw')
          (map (set_password uid pw) l)
  = String.eqb pw pw'.
Proof.
  intros Hnd Ha Hid. induction l as [|x r IH]; [destruct Ha|].
  cbn [map] in Hnd. inversion Hnd as [|e es Hx Hr]; subst e es.
  cbn [map existsb]. destruct Ha as [->|Ha].
  - unfold set_password at 1 2. rewrite Hid, Nat.eqb_refl. cbn [auth_email auth_password].
    rewrite String.eqb_refl. cbn [andb].
    assert (Hrest : existsb (fun x => String.eqb (auth_email x) (auth_email a)
                                      && String.eqb (auth_password x) pw')
                            (map (set_password (auth_id a) pw) r) = false).
    { apply Bool.not_true_iff_false. intros Hex. apply existsb_exists in Hex.
      destruct Hex as [y [Hy Ht]]. apply andb_true_iff in Ht. destruct Ht as [He _].
      apply String.eqb_eq in He. apply in_map_iff in Hy. destruct Hy as [z [<- Hz]].
      rewrite set_password_email in He. apply Hx. rewrite <- He. now apply in_map. }
    rewrite <- Hid at 1. rewrite Hrest. apply orb_false_r.
  - assert (Hne : String.eqb (auth_email (set_password uid pw x)) (auth_email a) = false).
    { rewrite set_password_email. apply String.eqb_neq. intros He. apply Hx.
      rewrite He. now apply in_map. }
    rewrite Hne. cbn [andb orb]. now apply IH.
Qed.

(** X7: after a successful reset, the e-mail of the identity signs in with
    the new passcode and, the e-mails of the credential store being unique,
    with no other: the old passcode stops working. *)
Theorem reset_then_sign_in :
  forall (db : Db) (a : AuthUser) (newPassword tried : string),
    NoDup (map auth_email (auth_users db)) ->
    In a (auth_users db) ->
    status (fst (reset_password db (auth_id a) newPassword)) = 200 ->
    signInWithPassword (snd (reset_password db (auth_id a) newPassword)) (auth_email a) tried
    = String.eqb newPassword tried.
Proof.
  intros db a newPassword tried Hnd Ha Hok. rewrite reset_password_cases in *.
  destruct (Js.test_4digits newPassword); cbn [negb] in *; [|discriminate Hok].
  destruct (has_identity db (auth_id a)); [|discriminate Hok].
  cbn [snd]. unfold signInWithPassword. cbn [auth_users].
  now apply signIn_after_set_password.
Qed.

Lemma reset_then_sign_in_witness :
  signInWithPassword (snd (reset_password fleet_db 2 "9090")) "abebe@fleet.et" "9090" = true /\
  signInWithPassword (snd (reset_password fleet_db 2 "9090")) "abebe@fleet.et" "1234" = false.
Proof.
  split.
  - apply (reset_then_sign_in fleet_db (mkAuthUser 2 "abebe@fleet.et" "1234") "9090" "9090").
    + repeat constructor; simpl; intuition discriminate.
    + simpl. auto.
    + reflexivity.
  - reflexivity.
Defined.

Lemma delete_user_cases (db : Db) (fault : option string) (uid : uuid) :
  delete_user db fault uid =
  if has_identity db uid
  then match fault with
       | Some msg =>
           (mkResponse 400 (ErrorBody msg),
            mkDb (filter (fun a => negb (auth_id a =? uid)) (auth_users db)) (app_users db))
       | None =>
           (mkResponse 200 (SuccessBody "User deleted successfully"),
            mkDb (filter (fun a => negb (auth_id a =? uid)) (auth_users db))
                 (filter (fun u => negb (id u =? uid)) (app_users db)))
       end
  else (mkResponse 400 (ErrorBody "User not found"), db).
Proof.
  unfold delete_user, deleteUser, delete_row, has_identity.
  destruct (existsb _ _); [|reflexivity]. destruct fault; reflexivity.
Qed.



(** X9: a deletion answered 200 leaves no credential and no directory row
    with the identity, and every credential and row of another identity
    where it was. *)
Theorem delete_user_removes_both :
  forall (db : Db) (fault : option string) (userId : uuid),
    status (fst (delete_user db fault userId)) = 200 ->
    (forall a, In a (auth_users (snd (delete_user db fault userId))) <->
               In a (auth_users db) /\ auth_id a <> userId) /\
    (forall u, In u (app_users (snd (delete_user db fault userId))) <->
               In u (app_users db) /\ id u <> userId).
Proof.
  intros db fault userId. rewrite delete_user_cases.
  destruct (has_identity db userId); [|discriminate].
  destruct fault as [msg|]; [discriminate|]. intros _. cbn [snd auth_users app_users].
  split; intros x; rewrite filter_In, negb_true_iff, Nat.eqb_neq; reflexivity.
Qed.

Lemma delete_user_removes_both_witness :
  map email (app_users (snd (delete_user fleet_db None 2))) = ["admin@admin.com"] /\
  ~ In (mkAppUser 2 "abebe@fleet.et" "Abebe" user ["AA-1"] (Some 1))
       (app_users (snd (delete_user fleet_db None 2))).
Proof.
  split; [reflexivity|].
  destruct (delete_user_removes_both fleet_db None 2 eq_refl) as [_ Hrows].
  intros Hin. apply Hrows in Hin. destruct Hin as [_ Hid]. now apply Hid.
Defined.

(** X10: creating an account and then deleting the identity it was given
    restores both tables exactly. *)
Theorem create_then_delete_restores :
  forall (db : Db) (caller : uuid) (fault : option string) (req : CreateUserRequest),
    status (response (create_user db caller fault req)) = 200 ->
    delete_user (db_after (create_user db caller fault req)) None (fresh_id db)
    = (mkResponse 200 (SuccessBody "User deleted successfully"), db).
Proof.
  intros db caller fault req Hok.
  destruct (create_user_success db caller fault req Hok) as [_ [_ Hdb]].
  rewrite Hdb, delete_user_cases. unfold has_identity. cbn [auth_users app_users].
  rewrite existsb_app. cbn [existsb auth_id]. rewrite Nat.eqb_refl, !orb_true_r.
  rewrite !filter_app. cbn [filter auth_id id]. rewrite Nat.eqb_refl. cbn [negb].
  rewrite !app_nil_r.
  rewrite !ListFacts.filter_all.
  - destruct db; reflexivity.
  - intros u Hu. apply fresh_id_app in Hu. apply negb_true_iff, Nat.eqb_neq. lia.
  - intros a Ha. apply fresh_id_auth in Ha. apply negb_true_iff, Nat.eqb_neq. lia.
Qed.

Lemma create_then_delete_restores_witness :
  snd (delete_user (db_after (create_user fleet_db 1 None kebede_request)) None 3) = fleet_db.
Proof.
  exact (f_equal snd (create_then_delete_restores fleet_db 1 None kebede_request eq_refl)).
Defined.

End Lifecycle.

(* ================================================================== *)
(** ** First sign-in: [AuthProvider.fetchAppUser] *)
(* ================================================================== *)

Module AuthProvider.
Import Store.

(** [.select('*').eq('email', em).maybeSingle()]: no row gives [null], one
    row gives the row, several rows give an error ([None] here). *)
Definition maybeSingle_by_email (db : Db) (em : string) : option (option AppUser) :=
  match filter (fun u => String.eqb (email u) em) (app_users db) with
  | [] => Some None
  | [u] => Some (Some u)
  | _ => None
  end.

(** [email.split('@')[0]]. *)
Fixpoint before_at (s : string) : string :=
  match s with
  | EmptyString => EmptyString
  | String c r => if Ascii.eqb c "@"%char then EmptyString else String c (before_at r)
  end.

(** [fetchAppUser(email)]: the value given to [setAppUser] and the backend
    afterwards.  The inserted row gets its [id] from the database, an
    identifier no row carries yet; [insertFault] is the error of a refused
    insertion, if any. *)
Definition fetchAppUser (db : Db) (insertFault : option string) (em : string)
  : option AppUser * Db :=
  match maybeSingle_by_email db em with
  | None => (None, db)
  | Some (Some data) => (Some data, db)
  | Some None =>
      match insertFault with
      | Some _ => (None, db)
      | None =>
          let newUser :=
            mkAppUser (AdminUsers.fresh_id db) em (before_at em) user [] None in
          (Some newUser, mkDb (auth_users db) (app_users db ++ [newUser]))
      end
  end.

Lemma fetchAppUser_some (db db' : Db) (insertFault : option string) (em : string)
      (u : AppUser) :
  fetchAppUser db insertFault em = (Some u, db') ->
  (filter (fun x => String.eqb (email x) em) (app_users db) = [u] /\ db' = db) \/
  (filter (fun x => String.eqb (email x) em) (app_users db) = [] /\
   u = mkAppUser (AdminUsers.fresh_id db) em (before_at em) user [] None /\
   db' = mkDb (auth_users db) (app_users db ++ [u])).
Proof.
  unfold fetchAppUser, maybeSingle_by_email.
  destruct (filter _ (app_users db)) as [|x [|y r]] eqn:E.
  - destruct insertFault; [discriminate|]. intros H. injection H as <- <-.
    right. repeat split.
  - intros H. injection H as <- <-. now left.
  - discriminate.
Qed.

(** X11: the account [fetchAppUser] hands to the application is either a
    row that was already in the directory, which it leaves alone, or one new
    row for that e-mail with role user and no vehicle.  Such a new account
    may record fuel for every vehicle and is a passcode candidate for none;
    the other rows, the administrators among them, and the credentials stay
    as they were. *)
Theorem fetchAppUser_provisions_plain_user :
  forall (db db' : Db) (insertFault : option string) (em : string) (u : AppUser),
    fetchAppUser db insertFault em = (Some u, db') ->
    email u = em /\
    auth_users db' = auth_users db /\
    select_by_role db' admin = select_by_role db admin /\
    ((In u (app_users db) /\ db' = db) \/
     (app_users db' = app_users db ++ [u] /\
      role u = user /\
      assigned_vehicles u = [] /\
      (forall v, Policy.canWriteRecord u v = true) /\
      (forall plateUpper, ~ In u (Login.candidates db' plateUpper)))).
Proof.
  intros db db' insertFault em u H. apply fetchAppUser_some in H.
  destruct H as [[Hone ->] | [Hnone [-> ->]]].
  - assert (Hin : In u (filter (fun x => String.eqb (email x) em) (app_users db)))
      by (rewrite Hone; now left).
    apply filter_In in Hin. destruct Hin as [Hin He]. apply String.eqb_eq in He.
    repeat split; try assumption; try reflexivity. now left.
  - cbn [email auth_users app_users]. split; [reflexivity|]. split; [reflexivity|].
    split.
    + unfold select_by_role. cbn [app_users]. rewrite filter_app. cbn. apply app_nil_r.
    + right. repeat split.
      intros plateUpper Hin. unfold Login.candidates in Hin.
      apply filter_In in Hin. destruct Hin as [_ Hplate]. discriminate Hplate.
Qed.

Lemma fetchAppUser_provisions_plain_user_witness :
  Policy.canWriteRecord (mkAppUser 3 "new.driver@fleet.et" "new.driver" user [] None) "zz-9"
  = true.
Proof.
  destruct (fetchAppUser_provisions_plain_user AdminUsers.fleet_db
              (mkDb (auth_users AdminUsers.fleet_db)
                    (app_users AdminUsers.fleet_db
                     ++ [mkAppUser 3 "new.driver@fleet.et" "new.driver" user [] None]))
              None "new.driver@fleet.et"
              (mkAppUser 3 "new.driver@fleet.et" "new.driver" user [] None) eq_refl)
    as [_ [_ [_ [[Hin _] | [_ [_ [_ [Hwrite _]]]]]]]].
  - simpl in Hin. destruct Hin as [H|[H|[]]]; discriminate H.
  - apply Hwrite.
Defined.

(** X12: fetching twice provisions once: a second call for the same e-mail
    finds the account the first call returned and changes nothing. *)
Theorem fetchAppUser_twice :
  forall (db db' : Db) (fault1 fault2 : option string) (em : string) (u : AppUser),
    fetchAppUser db fault1 em = (Some u, db') ->
    fetchAppUser db' fault2 em = (Some u, db').
Proof.
  intros db db' fault1 fault2 em u H. apply fetchAppUser_some in H.
  unfold fetchAppUser, maybeSingle_by_email.
  destruct H as [[Hone ->] | [Hnone [-> ->]]].
  - now rewrite Hone.
  - cbn [app_users]. rewrite filter_app, Hnone. cbn [filter email app].
    now rewrite String.eqb_refl.
Qed.

Lemma fetchAppUser_twice_witness :
  fetchAppUser (snd (fetchAppUser AdminUsers.fleet_db None "new.driver@fleet.et")) None
               "new.driver@fleet.et"
  = fetchAppUser AdminUsers.fleet_db None "new.driver@fleet.et".
Proof.
  apply (fetchAppUser_twice AdminUsers.fleet_db _ None None "new.driver@fleet.et").
  reflexivity.
Defined.

End AuthProvider.

(* ================================================================== *)
(** ** From the administrator's actions to the driver's sign-in *)
(* ================================================================== *)

Module Journeys.
Import Store AdminUsers.

Lemma test_4digits_length (s : string) :
  Js.test_4digits s = true -> String.length s = 4.
Proof.
  destruct s as [|a [|b [|c [|d [|e r]]]]]; try discriminate. reflexivity.
Qed.


(** X13: an account the administrator has just created can sign in at once:
    with its passcode and any of its plates, typed in any case, provided no
    earlier role=user account is assigned that plate, the form welcomes the
    new account. *)
Theorem created_account_signs_in :
  forall (db : Db) (caller : uuid) (fault : option string) (req : CreateUserRequest)
         (plateNumber : string),
    status (response (create_user db caller fault req)) = 200 ->
    In (Js.toUpperCase (Js.trim plateNumber)) (vehiclesArray (req_assignedVehicles req)) ->
    (forall u, In u (app_users db) -> role u = user ->
               ~ In (Js.toUpperCase (Js.trim plateNumber)) (assigned_vehicles u)) ->
    Login.handleSignIn (db_after (create_user db caller fault req)) None
                       plateNumber (req_password req)
    = Login.mkResult
        (Login.Welcome
           (mkAppUser (fresh_id db) (Js.toLowerCase (req_email req)) (req_fullName req) user
                      (vehiclesArray (req_assignedVehicles req)) (Some caller))
           (Js.toUpperCase (Js.trim plateNumber)))
        false
        [(Js.toLowerCase (req_email req), req_password req)].
Proof.
  intros db caller fault req plateNumber Hok Hplate Hfree.
  destruct (create_user_success db caller fault req Hok) as [Hpw [_ Hdb]].
  rewrite Hdb.
  assert (Hwf : Login.well_formed plateNumber (req_password req)).
  { split; [|now apply test_4digits_length].
    intros Hblank. rewrite Hblank in Hplate. unfold vehiclesArray in Hplate.
    apply filter_In in Hplate. destruct Hplate as [_ Hlen]. discriminate Hlen. }
  rewrite (Login.handleSignIn_well_formed _ plateNumber (req_password req) Hwf). cbv zeta.
  unfold Login.candidates, select_by_role. cbn [app_users]. rewrite !filter_app.
  cbn [filter role Role_eqb].
  assert (Hhas : Login.has_plate (Js.toUpperCase (Js.trim plateNumber))
                   (mkAppUser (fresh_id db) (Js.toLowerCase (req_email req)) (req_fullName req)
                              user (vehiclesArray (req_assignedVehicles req)) (Some caller))
                 = true).
  { unfold Login.has_plate. cbn [assigned_vehicles]. now apply Policy.includes_In. }
  rewrite Hhas.
  rewrite (ListFacts.filter_none (Login.has_plate _)
                                 (filter (fun u => Role_eqb (role u) user) (app_users db))).
  2:{ intros u Hu. apply filter_In in Hu. destruct Hu as [Hu Hrole].
      apply Bool.not_true_iff_false. intros Hincl. apply Policy.includes_In in Hincl.
      apply (Hfree u Hu); [|exact Hincl]. destruct (role u); [discriminate Hrole | reflexivity]. }
  cbn [app].
  assert (Hsign : signInWithPassword
                    (mkDb (auth_users db ++
                           [mkAuthUser (fresh_id db) (Js.toLowerCase (req_email req))
                                       (req_password req)])
                          (app_users db ++
                           [mkAppUser (fresh_id db) (Js.toLowerCase (req_email req))
                                      (req_fullName req) user
                                      (vehiclesArray (req_assignedVehicles req)) (Some caller)]))
                    (Js.toLowerCase (req_email req)) (req_password req) = true).
  { unfold signInWithPassword. cbn [auth_users]. rewrite existsb_app.
    cbn [existsb auth_email auth_password]. rewrite !String.eqb_refl. cbn.
    apply orb_true_r. }
  cbn [email]. rewrite Hsign.
  destruct (filter (fun u => Role_eqb (role u) user) (app_users db)); reflexivity.
Qed.

Lemma created_account_signs_in_witness :
  Login.outcome (Login.handleSignIn (db_after (create_user fleet_db 1 None kebede_request))
                                    None " et-77" "4321")
  = Login.Welcome
      (mkAppUser 3 "kebede@fleet.et" "Kebede" user ["ABC-1"; "ABC-1"; "ET-77"] (Some 1))
      "ET-77".
Proof.
  refine (f_equal Login.outcome
            (created_account_signs_in fleet_db 1 None kebede_request " et-77" eq_refl _ _)).
  - simpl. auto.
  - intros u Hu Hrole Hin. simpl in Hu. destruct Hu as [<-|[<-|[]]].
    + discriminate Hrole.
    + simpl in Hin. destruct Hin as [H|[]]. discriminate H.
Defined.



(** X15: an account provisioned at first sign-in cannot be removed through
    [delete-user]: the identifier of its row is not an identity of the
    credential store, so the deletion is refused and nothing changes. *)
Theorem provisioned_account_cannot_be_deleted :
  forall (db db' : Db) (insertFault fault : option string) (em : string) (u : AppUser),
    AuthProvider.fetchAppUser db insertFault em = (Some u, db') ->
    ~ In u (app_users db) ->
    AdminEndpoint.delete_user db' fault (id u)
    = (mkResponse 400 (ErrorBody "User not found"), db').
Proof.
  intros db db' insertFault fault em u H Hnew.
  apply AuthProvider.fetchAppUser_some in H.
  destruct H as [[Hone ->] | [_ [-> ->]]].
  - exfalso. apply Hnew.
    assert (Hin : In u (filter (fun x => String.eqb (email x) em) (app_users db)))
      by (rewrite Hone; now left).
    now apply filter_In in Hin.
  - rewrite Lifecycle.delete_user_cases. cbn [id].
    assert (Hid : Lifecycle.has_identity
                    (mkDb (auth_users db)
                          (app_users db ++
                           [mkAppUser (fresh_id db) em (AuthProvider.before_at em) user [] None]))
                    (fresh_id db) = false).
    { unfold Lifecycle.has_identity. cbn [auth_users].
      apply Bool.not_true_iff_false. intros Hex. apply existsb_exists in Hex.
      destruct Hex as [a [Ha Heq]]. apply Nat.eqb_eq in Heq.
      apply fresh_id_auth in Ha. lia. }
    now rewrite Hid.
Qed.

Lemma provisioned_account_cannot_be_deleted_witness :
  fst (AdminEndpoint.delete_user
         (snd (AuthProvider.fetchAppUser fleet_db None "new.driver@fleet.et")) None 3)
  = mkResponse 400 (ErrorBody "User not found").
Proof.
  refine (f_equal fst
            (provisioned_account_cannot_be_deleted fleet_db _ None None "new.driver@fleet.et"
               (mkAppUser 3 "new.driver@fleet.et" "new.driver" user [] None) eq_refl _)).
  simpl. intros [H|[H|[]]]; discriminate H.
Defined.

End Journeys.

(* ================================================================== *)
(** ** Whom the [auth-with-passcode] function finds *)
(* ================================================================== *)

Module PasscodeFacts.
Import Store PasscodeAuth.

(** The credential of the account verifies the passcode. *)
Definition verifies (db : Db) (code : string) (u : AppUser) : bool :=
  signInWithPassword db (email u) code.

Definition attempt (code : string) (u : AppUser) : string * string := (email u, code).

Lemma match_user_found (db : Db) (code : string) (users : list AppUser)
      (u : AppUser) (tried : list (string * string)) :
  match_user db code users = (Some u, tried) ->
  exists before after,
    users = before ++ u :: after /\
    (forall b, In b before -> verifies db code b = false) /\
    verifies db code u = true /\
    tried = map (attempt code) (before ++ [u]).
Proof.
  revert tried. induction users as [|x r IH]; intros tried; cbn [match_user]; [discriminate|].
  destruct (signInWithPassword db (email x) code) eqn:E.
  - intros H. injection H as <- <-. exists [], r. repeat split; [intros b []| exact E].
  - destruct (match_user db code r) as [m t] eqn:Hm. intros H. injection H as -> <-.
    destruct (IH t eq_refl) as [before [after [-> [Hfail [Hok ->]]]]].
    exists (x :: before), after. repeat split; [|exact Hok].
    intros b [<-|Hb]; [exact E | now apply Hfail].
Qed.

Lemma match_user_none (db : Db) (code : string) (users : list AppUser)
      (tried : list (string * string)) :
  match_user db code users = (None, tried) ->
  (forall b, In b users -> verifies db code b = false) /\
  tried = map (attempt code) users.
Proof.
  revert tried. induction users as [|x r IH]; intros tried; cbn [match_user].
  - intros H. injection H as <-. split; [intros b [] | reflexivity].
  - destruct (signInWithPassword db (email x) code) eqn:E; [discriminate|].
    destruct (match_user db code r) as [m t] eqn:Hm. intros H. injection H as -> <-.
    destruct (IH t eq_refl) as [Hfail ->]. split; [|reflexivity].
    intros b [<-|Hb]; [exact E | now apply Hfail].
Qed.

Lemma valid_request (db : Db) (code plate : string) :
  Js.test_4digits code = true -> Js.trim plate <> "" ->
  auth_with_passcode db None POST (JString code) (JString plate) =
  match select_by_role db user with
  | [] => mkRun (mkResponse 404 (ErrorBody "No users found")) []
  | users =>
      match match_user db code users with
      | (None, tried) => mkRun (mkResponse 401 (ErrorBody "Invalid passcode")) tried
      | (Some matchedUser, tried) =>
          mkRun (mkResponse 200 (UserFound (email matchedUser) (full_name matchedUser))) tried
      end
  end.
Proof.
  intros Hcode Hplate. destruct (trim_nonblank plate Hplate) as [F T].
  unfold auth_with_passcode. rewrite F, T.
  assert (Fc : string_field (JString code) = Some code).
  { destruct code; [discriminate Hcode | reflexivity]. }
  rewrite Fc, Hcode. reflexivity.
Qed.

(** X16: for a well-formed request, the account the function names is a
    role=user row whose credential verifies the passcode, the first such row
    in directory order, and the sign-in attempts are exactly the rows up to
    and including it; it answers 401 only after trying every role=user row
    without success, and 404 only when there is no such row. *)
Theorem auth_with_passcode_finds_first_verified :
  forall (db : Db) (code plate : string),
    Js.test_4digits code = true ->
    Js.trim plate <> "" ->
    (forall e n,
        body (response (auth_with_passcode db None POST (JString code) (JString plate)))
        = UserFound e n ->
        exists before u after,
          select_by_role db user = before ++ u :: after /\
          e = email u /\ n = full_name u /\ role u = user /\
          verifies db code u = true /\
          (forall b, In b before -> verifies db code b = false) /\
          signIn_calls (auth_with_passcode db None POST (JString code) (JString plate))
          = map (attempt code) (before ++ [u])) /\
    (status (response (auth_with_passcode db None POST (JString code) (JString plate))) = 401 ->
     (forall b, In b (select_by_role db user) -> verifies db code b = false) /\
     signIn_calls (auth_with_passcode db None POST (JString code) (JString plate))
     = map (attempt code) (select_by_role db user)) /\
    (status (response (auth_with_passcode db None POST (JString code) (JString plate))) = 404 ->
     select_by_role db user = []).
Proof.
  intros db code plate Hcode Hplate. rewrite (valid_request db code plate Hcode Hplate).
  destruct (select_by_role db user) as [|x xs] eqn:Hsel.
  - cbn [response body status signIn_calls]. split; [discriminate|]. split; [discriminate|].
    reflexivity.
  - destruct (match_user db code (x :: xs)) as [[m|] tried] eqn:Hm;
      cbn [response body status signIn_calls].
    + split; [|split; discriminate].
      intros e n H. injection H as <- <-.
      destruct (match_user_found db code (x :: xs) m tried Hm)
        as [before [after [Hsplit [Hfail [Hok ->]]]]].
      exists before, m, after. repeat split; try assumption.
      assert (Hin : In m (select_by_role db user)).
      { rewrite Hsel, Hsplit. apply in_or_app. right. now left. }
      unfold select_by_role in Hin. apply filter_In in Hin. destruct Hin as [_ Hrole].
      destruct (role m); [discriminate Hrole | reflexivity].
    + split; [discriminate|]. split; [|discriminate].
      intros _. now apply match_user_none.
Qed.

Lemma auth_with_passcode_finds_first_verified_witness :
  exists u, role u = user /\ verifies AdminUsers.fleet_db "1234" u = true.
Proof.
  destruct (auth_with_passcode_finds_first_verified AdminUsers.fleet_db "1234" "zz-9")
    as [Hfound _]; [reflexivity | discriminate |].
  destruct (Hfound "abebe@fleet.et" "Abebe" eq_refl)
    as [before [u [after [_ [_ [_ [Hrole [Hverifies _]]]]]]]].
  exists u. split; assumption.
Defined.

End PasscodeFacts.

(* ================================================================== *)
(** ** What every summary of [groupRecordsByPlate] satisfies *)
(* ================================================================== *)

Module AggregatorFacts.
Import Store Aggregator.

(** [new Set(records.map(r => r.plate_number)).size]. *)
Definition uniqueVehicles (recs : list FuelRecord) : nat := List.length (plates recs).

Lemma sort_length {A : Type} (cmp : A -> A -> comparison) (l : list A) :
  List.length (Js.sort cmp l) = List.length l.
Proof. symmetry. apply Permutation_length, SortFacts.sort_perm. Qed.

Section AnyCollation.

(** The facts of this section hold whatever [localeCompare] answers. *)
Variable localeCompare : string -> string -> comparison.

Local Abbreviation groupRecordsByPlate := (Aggregator.groupRecordsByPlate localeCompare).
Local Abbreviation by_plate := (Aggregator.by_plate localeCompare).

(** Every summary is the summary of the partition of its plate. *)
Lemma group_of_plate (recs : list FuelRecord) (g : GroupedRecord) :
  In g (groupRecordsByPlate recs) ->
  In (group_plate_number g) (plates recs) /\
  g = summarize (partition_of recs (group_plate_number g)).
Proof.
  rewrite groupRecordsByPlate_partitions. intros Hg.
  apply (Permutation_in g (Permutation_sym (SortFacts.sort_perm by_plate _))) in Hg.
  apply in_map_iff in Hg. destruct Hg as [k [<- Hk]]. now split.
Qed.

Definition mem (k : string) (ks : list string) : bool := existsb (String.eqb k) ks.

Lemma filter_disjoint_permutation {A : Type} (p q : A -> bool) (l : list A) :
  (forall x, p x = true -> q x = true -> False) ->
  Permutation (filter (fun x => p x || q x) l) (filter p l ++ filter q l).
Proof.
  intros Hpq. induction l as [|x r IH]; cbn [filter]; [constructor|].
  destruct (p x) eqn:Ep, (q x) eqn:Eq; cbn [orb].
  - exfalso. now apply (Hpq x).
  - cbn [app]. now constructor.
  - now apply Permutation_cons_app.
  - exact IH.
Qed.

Lemma partitions_cover (recs : list FuelRecord) (ks : list string) :
  NoDup ks ->
  Permutation (flat_map (fun k => filter (on_plate k) recs) ks)
              (filter (fun r => mem (plate_number r) ks) recs).
Proof.
  induction 1 as [|k ks Hk Hks IH]; cbn [flat_map].
  - cbn [mem existsb]. rewrite ListFacts.filter_none; [constructor | reflexivity].
  - eapply perm_trans; [apply Permutation_app_head, IH|].
    apply Permutation_sym.
    eapply perm_trans; [|apply (filter_disjoint_permutation (on_plate k)
                                   (fun r => mem (plate_number r) ks))].
    + erewrite filter_ext; [apply Permutation_refl|].
      intros r. unfold mem, on_plate. cbn [existsb]. reflexivity.
    + intros r Hp Hq. unfold on_plate in Hp. apply String.eqb_eq in Hp. subst k.
      apply Hk. unfold mem in Hq. apply existsb_exists in Hq.
      destruct Hq as [k' [Hin Heq]]. apply String.eqb_eq in Heq. now subst k'.
Qed.

Lemma flat_map_permutation_ext {A B : Type} (f g : A -> list B) (l : list A) :
  (forall x, Permutation (f x) (g x)) -> Permutation (flat_map f l) (flat_map g l).
Proof.
  intros H. induction l as [|x r IH]; cbn [flat_map]; [constructor|].
  now apply Permutation_app.
Qed.

Lemma group_count (recs : list FuelRecord) (g : GroupedRecord) :
  In g (groupRecordsByPlate recs) -> recordCount g = List.length (records g).
Proof.
  intros Hg. destruct (group_of_plate recs g Hg) as [_ ->].
  cbn [summarize partition_of recordCount records]. now rewrite sort_length.
Qed.

(** X17: the summaries share out the input: the records of all the
    partitions together are the input records, each exactly once, so the
    counts add up to the number of records; and there is one summary per
    distinct plate. *)
Theorem groupRecordsByPlate_shares_out_records :
  forall recs : list FuelRecord,
    Permutation (flat_map records (groupRecordsByPlate recs)) recs /\
    list_sum (map recordCount (groupRecordsByPlate recs)) = List.length recs /\
    List.length (groupRecordsByPlate recs) = uniqueVehicles recs.
Proof.
  intros recs.
  assert (Hperm : Permutation (flat_map records (groupRecordsByPlate recs)) recs).
  { rewrite groupRecordsByPlate_partitions.
    eapply perm_trans.
    { apply Permutation_flat_map, Permutation_sym, SortFacts.sort_perm. }
    rewrite flat_map_concat_map, map_map, <- flat_map_concat_map.
    eapply perm_trans.
    { apply (flat_map_permutation_ext _ (fun k => filter (on_plate k) recs)).
      intros k. cbn [summarize partition_of records].
      apply Permutation_sym, SortFacts.sort_perm. }
    eapply perm_trans; [apply partitions_cover, plates_NoDup|].
    rewrite ListFacts.filter_all; [apply Permutation_refl|].
    intros r Hr. unfold mem. apply existsb_exists. exists (plate_number r).
    split; [|apply String.eqb_refl]. apply plates_In. now exists r. }
  split; [exact Hperm|]. split.
  - rewrite <- (Permutation_length Hperm), length_flat_map. f_equal.
    apply map_ext_in. intros g Hg. now apply (group_count recs).
  - rewrite groupRecordsByPlate_partitions, sort_length, length_map. reflexivity.
Qed.

Lemma summaries_plates_NoDup (recs : list FuelRecord) :
  NoDup (map group_plate_number (groupRecordsByPlate recs)).
Proof.
  rewrite groupRecordsByPlate_partitions.
  eapply Permutation_NoDup; [|apply (plates_NoDup recs)].
  eapply perm_trans; [|apply Permutation_map, SortFacts.sort_perm].
  rewrite map_map. cbn [summarize partition_of group_plate_number].
  rewrite map_id. apply Permutation_refl.
Qed.

Section ConsistentCollation.

Hypothesis localeCompare_flip :
  forall a b, localeCompare b a = CompOpp (localeCompare a b).
Hypothesis localeCompare_trans :
  forall a b c, localeCompare a b <> Gt -> localeCompare b c <> Gt ->
                localeCompare a c <> Gt.

(** X18: for a consistent [localeCompare], no summary is followed by one
    whose plate collates before its own, and no plate has two summaries;
    each summary holds at least one record, counts its records, holds
    exactly the input records of its plate, and lists them newest fill date
    first. *)
Theorem summaries_sorted_and_exact :
  forall recs : list FuelRecord,
    StronglySorted
      (fun g h => localeCompare (group_plate_number g) (group_plate_number h) <> Gt)
      (groupRecordsByPlate recs) /\
    NoDup (map group_plate_number (groupRecordsByPlate recs)) /\
    forall g, In g (groupRecordsByPlate recs) ->
      records g <> [] /\
      recordCount g = List.length (records g) /\
      (forall r, In r (records g) <-> In r recs /\ plate_number r = group_plate_number g) /\
      StronglySorted (fun a b => (filling_date b <= filling_date a)%Z) (records g).
Proof.
  intros recs. split; [|split].
  - rewrite groupRecordsByPlate_partitions.
    apply (SortFacts.sort_sorted by_plate).
    + intros x y. apply localeCompare_flip.
    + intros x y z. apply localeCompare_trans.
  - apply summaries_plates_NoDup.
  - intros g Hg.
    assert (Hmem : forall r, In r (records g) <->
                             In r recs /\ plate_number r = group_plate_number g).
    { destruct (group_of_plate recs g Hg) as [_ Heq]. intros r.
      rewrite Heq at 1. cbn [summarize partition_of records]. split.
      - intros Hr.
        apply (Permutation_in r (Permutation_sym (SortFacts.sort_perm by_date_desc _))) in Hr.
        apply filter_In in Hr. destruct Hr as [Hr Hp].
        split; [exact Hr | now apply String.eqb_eq in Hp].
      - intros [Hr Hp]. apply (Permutation_in r (SortFacts.sort_perm by_date_desc _)).
        apply filter_In. split; [exact Hr | now apply String.eqb_eq]. }
    split; [|split; [now apply (group_count recs) | split; [exact Hmem|]]].
    + destruct (group_of_plate recs g Hg) as [Hk _].
      apply plates_In in Hk. destruct Hk as [r [Hr Hp]].
      intros Hnil. assert (Hin : In r (records g)) by (apply Hmem; now split).
      rewrite Hnil in Hin. destruct Hin.
    + destruct (group_of_plate recs g Hg) as [_ ->].
      cbn [summarize partition_of records].
      apply (SortFacts.sort_sorted by_date_desc by_date_desc_flip by_date_desc_trans).
Qed.

End ConsistentCollation.

Lemma odometerReadings_nil (rs : list FuelRecord) :
  odometerReadings rs = [] <-> forall r, In r rs -> odometer_reading r = None.
Proof.
  unfold odometerReadings. induction rs as [|x r IH]; cbn [flat_map].
  - split; [intros _ y [] | reflexivity].
  - destruct (odometer_reading x) as [o|] eqn:E; cbn [app].
    + split; [discriminate|]. intros H. specialize (H x (or_introl eq_refl)). congruence.
    + rewrite IH. split.
      * intros H y [<-|Hy]; [exact E | now apply H].
      * intros H y Hy. apply H. now right.
Qed.

Lemma extreme_none (f : list float -> float) (readings : list float) :
  extreme f readings = None <-> readings = [].
Proof.
  unfold extreme. destruct readings; cbn; split; congruence.
Qed.

(** X19: the two odometer extremes of a summary are absent together, and
    they are absent exactly when no record of the vehicle carries a reading;
    a vehicle with a reading has both. *)
Theorem odometer_extremes_absent_together :
  forall (recs : list FuelRecord) (g : GroupedRecord),
    In g (groupRecordsByPlate recs) ->
    (latestOdometer g = None <-> forall r, In r (records g) -> odometer_reading r = None) /\
    (firstOdometer g = None <-> latestOdometer g = None).
Proof.
  intros recs g Hg. destruct (group_of_plate recs g Hg) as [_ ->].
  cbn [summarize partition_of latestOdometer firstOdometer records].
  rewrite !extreme_none, odometerReadings_nil. split; reflexivity.
Qed.

(** A stable sort keeps the elements of one rank in their input order. *)
Lemma sort_keeps_ties {A : Type} (cmp : A -> A -> comparison) (p : A -> bool)
      (l : list A) :
  (forall x y, p x = true -> p y = true -> cmp x y <> Gt) ->
  filter p (Js.sort cmp l) = filter p l.
Proof.
  intros Htie.
  assert (Hins : forall x r, filter p (Js.sort_insert cmp x r) = filter p (x :: r)).
  { intros x r. induction r as [|y r IH]; [reflexivity|].
    cbn [Js.sort_insert]. destruct (cmp x y) eqn:E; try reflexivity.
    cbn [filter] in *. rewrite IH.
    destruct (p x) eqn:Px, (p y) eqn:Py; try reflexivity.
    exfalso. now apply (Htie x y). }
  induction l as [|x r IH]; [reflexivity|].
  cbn [Js.sort]. rewrite Hins. cbn [filter]. now rewrite IH.
Qed.

(** X20: within a summary, the records of one fill date come in the order
    they had in the input. *)
Theorem same_date_records_in_input_order :
  forall (recs : list FuelRecord) (g : GroupedRecord) (date : Z),
    In g (groupRecordsByPlate recs) ->
    filter (fun r => (filling_date r =? date)%Z) (records g)
    = filter (fun r => (filling_date r =? date)%Z)
             (filter (on_plate (group_plate_number g)) recs).
Proof.
  intros recs g date Hg. destruct (group_of_plate recs g Hg) as [_ Heq].
  rewrite Heq at 1. cbn [summarize partition_of records].
  apply sort_keeps_ties. intros x y Hx Hy.
  apply Z.eqb_eq in Hx, Hy. unfold by_date_desc. rewrite Hx, Hy, Z.compare_refl.
  discriminate.
Qed.

End AnyCollation.

Lemma summaries_sorted_and_exact_witness :
  StronglySorted
    (fun g h => codeUnitCompare (group_plate_number g) (group_plate_number h) <> Gt)
    (groupRecordsByPlate codeUnitCompare three_fills) /\
  NoDup (map group_plate_number (groupRecordsByPlate codeUnitCompare three_fills)).
Proof.
  destruct (summaries_sorted_and_exact codeUnitCompare codeUnitCompare_flip
              codeUnitCompare_trans three_fills) as [Hsorted [Hnodup _]].
  split; [exact Hsorted | exact Hnodup].
Defined.

Lemma odometer_extremes_absent_together_witness :
  latestOdometer (summarize (partition_of three_fills "B")) = None /\
  firstOdometer (summarize (partition_of three_fills "B")) = None.
Proof.
  assert (Hg : In (summarize (partition_of three_fills "B"))
                  (groupRecordsByPlate codeUnitCompare three_fills))
    by (right; left; reflexivity).
  destruct (odometer_extremes_absent_together codeUnitCompare three_fills _ Hg)
    as [Hlatest Hfirst].
  assert (Hnone : latestOdometer (summarize (partition_of three_fills "B")) = None).
  { apply Hlatest. intros r Hr. simpl in Hr. destruct Hr as [<-|[]]. reflexivity. }
  split; [exact Hnone | now apply Hfirst].
Defined.

Lemma same_date_records_in_input_order_witness :
  map record_id (filter (fun r => (filling_date r =? 19723)%Z)
                        (flat_map records (groupRecordsByPlate codeUnitCompare
                                                               same_day_swapped)))
  = [2; 1].
Proof.
  assert (Hg : In (summarize (partition_of same_day_swapped "A"))
                  (groupRecordsByPlate codeUnitCompare same_day_swapped))
    by (left; reflexivity).
  change (flat_map records (groupRecordsByPlate codeUnitCompare same_day_swapped))
    with (records (summarize (partition_of same_day_swapped "A"))).
  rewrite (same_date_records_in_input_order codeUnitCompare same_day_swapped _ 19723%Z Hg).
  reflexivity.
Defined.

End AggregatorFacts.

(* ================================================================== *)
(** ** Submitting a record: the whole of [FuelForm.handleSubmit] *)
(* ================================================================== *)

Module FuelForm.
Import Store Aggregator.

(** The fields of the form, as typed. *)
Record FormData := mkFormData {
  plateNumber : string;
  fillingDate : string;
  fuelLiters : string;
  odometerReading : string
}.

Inductive Message :=
| NotAuthorizedFor (plateUpper : string)   (* 'You are not authorized to add records for vehicle ...' *)
| Submitted                                (* 'Fuel record submitted successfully!' *)
| Failed (msg : string).

(** What [handleSubmit] leaves: the message shown, whether [resetForm] ran
    and the table [fuel_records]. *)
Record Submission := mkSubmission {
  message : Message;
  form_reset : bool;
  fuel_records : list FuelRecord
}.

Section Submit.

(** [parseFloat], and the instant of a date column. *)
Variable parseFloat : string -> float.
Variable instant : string -> Z.

(** [error instanceof Error] on the error of the client library: it holds
    or not with the version of the library. *)
Variable errorIsError : bool.

(** The identifier the table gives a new row: one no row carries yet. *)
Definition new_record_id (table : list FuelRecord) : uuid :=
  S (list_max (map record_id table)).

(** The row handed to [.from('fuel_records').insert([...])]. *)
Definition new_record (table : list FuelRecord) (appUser : option AppUser)
           (formData : FormData) : FuelRecord :=
  mkFuelRecord (new_record_id table)
               (Js.toUpperCase (plateNumber formData))
               (instant (fillingDate formData))
               (parseFloat (fuelLiters formData))
               (if String.eqb (odometerReading formData) "" then None
                else Some (parseFloat (odometerReading formData)))
               (option_map id appUser).

(** [handleSubmit]; [insertError] is the message of the error of a refused
    insertion, if any. *)
Definition handleSubmit (table : list FuelRecord) (insertError : option string)
           (appUser : option AppUser) (formData : FormData) : Submission :=
  match Policy.handleSubmit_gate appUser (plateNumber formData) with
  | Policy.NotAuthorized plateUpper => mkSubmission (NotAuthorizedFor plateUpper) false table
  | Policy.Proceeds =>
      match insertError with
      | Some msg =>
          mkSubmission (Failed (if errorIsError then msg else "Failed to submit record"))
                       false table
      | None =>
          mkSubmission Submitted true (table ++ [new_record table appUser formData])
      end
  end.

(** X21: a submission either stores nothing (it was refused, or the
    insertion failed) or appends exactly one record, filed under the
    uppercase plate and owned by the account; and a record stored for an
    account with assigned vehicles is always for one of them. *)
Theorem handleSubmit_writes_only_permitted :
  forall (table : list FuelRecord) (insertError : option string)
         (account : AppUser) (formData : FormData),
    (fuel_records (handleSubmit table insertError (Some account) formData) = table /\
     message (handleSubmit table insertError (Some account) formData) <> Submitted) \/
    (exists r,
        fuel_records (handleSubmit table insertError (Some account) formData) = table ++ [r] /\
        message (handleSubmit table insertError (Some account) formData) = Submitted /\
        plate_number r = Js.toUpperCase (plateNumber formData) /\
        user_id r = Some (id account) /\
        Policy.canWriteRecord account (plateNumber formData) = true /\
        (assigned_vehicles account <> [] ->
         In (plate_number r) (assigned_vehicles account))).
Proof.
  intros table insertError account formData.
  unfold handleSubmit.
  pose proof (Policy.canWriteRecord_unfold account (plateNumber formData)) as Hcan.
  unfold Policy.canWriteRecord in Hcan.
  destruct (Policy.handleSubmit_gate (Some account) (plateNumber formData)) eqn:Hgate.
  - left. split; [reflexivity | discriminate].
  - destruct insertError as [msg|].
    + left. split; [reflexivity | discriminate].
    + right. eexists. split; [reflexivity|]. split; [reflexivity|].
      split; [reflexivity|]. split; [reflexivity|].
      split; [unfold Policy.canWriteRecord; now rewrite Hgate|].
      intros Hne. cbn [new_record plate_number].
      destruct (assigned_vehicles account) as [|p ps]; [now elim Hne|].
      symmetry in Hcan. now apply Policy.includes_In in Hcan.
Qed.

End Submit.

End FuelForm.

(* ================================================================== *)
(** ** Which screen is shown: [App.AppContent] and the panel's gates *)
(* ================================================================== *)

Module App.
Import Store.

Inductive ViewMode := records_view | users_view | analytics_view.

Inductive Screen :=
| Loading                        (* 'Loading...' *)
| AdminLoginForm
| LoginForm
| FuelForm
| AccessDenied                   (* 'You don't have administrator privileges ...' *)
| PanelLoading                   (* 'Loading admin panel...' *)
| PanelError (error : string)
| RecordsView
| AnalyticsView
| UsersAccessDenied              (* 'Access denied. Admin privileges required.' *)
| UsersLoading
| UsersTable
| NoRoute.

(** The state the providers and components hold. *)
Record UiState := mkUiState {
  authLoading : bool;              (* useAuth().loading *)
  session_user : option AuthUser;  (* useAuth().user *)
  appUser : option AppUser;        (* useAuth().appUser *)
  pathname : string;               (* useLocation().pathname *)
  panelLoading : bool;             (* AdminPanel: loading *)
  panelError : option string;      (* AdminPanel: error *)
  viewMode : ViewMode;             (* AdminPanel: viewMode *)
  usersLoading : bool              (* UserManagement: loading *)
}.

Definition is_admin_account (a : option AppUser) : bool :=
  match a with
  | Some u => Role_eqb (role u) admin
  | None => false
  end.

(** [UserManagement({currentUser})]. *)
Definition UserManagement (st : UiState) : Screen :=
  if negb (is_admin_account (appUser st)) then UsersAccessDenied
  else if usersLoading st then UsersLoading
  else UsersTable.

(** [AdminPanel()]. *)
Definition AdminPanel (st : UiState) : Screen :=
  if negb (is_admin_account (appUser st)) then AccessDenied
  else if panelLoading st then PanelLoading
  else match panelError st with
       | Some error => PanelError error
       | None =>
           match viewMode st with
           | users_view => UserManagement st
           | analytics_view => AnalyticsView
           | records_view => RecordsView
           end
       end.

Section Routes.

(** The router's test of a route path against the location. *)
Variable route_matches : string -> string -> bool.

(** [AppContent()]. *)
Definition AppContent (st : UiState) : Screen :=
  if authLoading st then Loading
  else
    match session_user st with
    | None => if String.eqb (pathname st) "/admin" then AdminLoginForm else LoginForm
    | Some _ =>
        if route_matches "/" (pathname st) then FuelForm
        else if route_matches "/admin" (pathname st) then AdminPanel st
        else NoRoute
    end.

Definition shows_admin_data (s : Screen) : bool :=
  match s with
  | RecordsView | AnalyticsView | UsersTable => true
  | _ => false
  end.

(** X22: the records, the analytics and the user table are shown only to a
    signed-in session whose directory account has role admin; a visitor
    without a session only ever gets one of the two sign-in forms, and a
    signed-in account of role user never gets past the refusal. *)
Theorem admin_data_only_for_admin :
  forall st : UiState,
    (shows_admin_data (AppContent st) = true ->
     session_user st <> None /\ exists u, appUser st = Some u /\ role u = admin) /\
    (authLoading st = false -> session_user st = None ->
     AppContent st = AdminLoginForm \/ AppContent st = LoginForm) /\
    (forall u, appUser st = Some u -> role u = user ->
               AppContent st <> UsersTable /\ AdminPanel st = AccessDenied).
Proof.
  intros st. split; [|split].
  - unfold AppContent.
    destruct (authLoading st); [discriminate|].
    destruct (session_user st) as [s|].
    2:{ destruct (String.eqb (pathname st) "/admin"); discriminate. }
    destruct (route_matches "/" (pathname st)); [discriminate|].
    destruct (route_matches "/admin" (pathname st)); [|discriminate].
    unfold AdminPanel, UserManagement, is_admin_account.
    destruct (appUser st) as [u|]; [|discriminate].
    destruct (role u) eqn:Hrole; [|discriminate].
    intros _. split; [discriminate | now exists u].
  - intros Hl Hs. unfold AppContent. rewrite Hl, Hs.
    destruct (String.eqb (pathname st) "/admin"); [now left | now right].
  - intros u Hu Hrole.
    assert (Hpanel : AdminPanel st = AccessDenied).
    { unfold AdminPanel, is_admin_account. now rewrite Hu, Hrole. }
    split; [|exact Hpanel].
    unfold AppContent. rewrite Hpanel.
    destruct (authLoading st); [discriminate|].
    destruct (session_user st).
    + destruct (route_matches "/" (pathname st)); [discriminate|].
      destruct (route_matches "/admin" (pathname st)); discriminate.
    + destruct (String.eqb (pathname st) "/admin"); discriminate.
Qed.

End Routes.

End App.

(* ================================================================== *)
(** ** What a run of [create-user] leaves behind *)
(* ================================================================== *)

Module CreateFacts.
Import Store AdminUsers CreateUserHandler.

(** The row the trigger writes for a new identity. *)
Definition trigger_row (uid : uuid) (em : string) : AppUser :=
  mkAppUser uid em em user [] None.

(** X23: a run that is not answered 200 removes no credential and adds at
    most the one it created.  That credential stays only when the run threw
    after creating it (a body whose [assignedVehicles] is no string,
    answered 500) or when the store refused the deletion that follows a
    failed insertion; in every other run the credential table is as it was.
    The directory gains at most the row the trigger wrote for the new
    identity. *)
Theorem failed_create_removes_no_credential :
  forall (db : Db) (caller : uuid) (faults : Faults) (raw : RawRequest),
    status (response (post_create_user db caller faults raw)) <> 200 ->
    (auth_users (db_after (post_create_user db caller faults raw)) = auth_users db \/
     exists email,
       raw_email raw = JString email /\
       auth_users (db_after (post_create_user db caller faults raw))
       = auth_users db
         ++ [mkAuthUser (fresh_id db) (Js.toLowerCase email) (raw_password raw)] /\
       (status (response (post_create_user db caller faults raw)) = 500 \/
        (status (response (post_create_user db caller faults raw)) = 400 /\
         delete_fault faults <> None))) /\
    (app_users (db_after (post_create_user db caller faults raw)) = app_users db \/
     exists email,
       raw_email raw = JString email /\
       app_users (db_after (post_create_user db caller faults raw))
       = app_users db ++ [trigger_row (fresh_id db) (Js.toLowerCase email)]).
Proof.
  intros db caller faults raw. unfold post_create_user.
  destruct (Js.test_4digits (raw_password raw)); cbn [negb];
    [|intros _; split; now left].
  destruct (raw_email raw) as [email|complaint]; [|intros _; split; now left].
  destruct (single_by_email db _); [intros _; split; now left|].
  unfold auth_createUser. destruct (create_fault faults) as [e|];
    [intros _; split; now left|].
  destruct (createUser db _ _) as [[a|e] db1] eqn:Hcreate.
  2:{ apply createUser_inr in Hcreate. subst db1. intros _. split; now left. }
  apply createUser_inl in Hcreate. destruct Hcreate as [-> ->]. cbn [auth_id].
  assert (Hrows : forall rows,
             rows = handle_new_user
                      (mkAuthUser (fresh_id db) (Js.toLowerCase email) (raw_password raw))
                      (app_users db) ->
             rows = app_users db \/
             exists email0,
               JString email = JString email0 /\
               rows = app_users db ++ [trigger_row (fresh_id db) (Js.toLowerCase email0)]).
  { intros rows ->. unfold handle_new_user. cbn [auth_email auth_id].
    destruct (existsb _ (app_users db)); [now left|]. right. now exists email. }
  destruct (raw_assignedVehicles raw) as [vehicles|complaint].
  2:{ cbn [response status db_after auth_users app_users]. intros _. split.
      - right. exists email. split; [reflexivity|]. split; [reflexivity | now left].
      - now apply Hrows. }
  match goal with |- context [upsert ?d ?f ?r] =>
    destruct (upsert d f r) as [[m|] db2] eqn:Hupsert end.
  - apply upsert_error in Hupsert. subst db2. unfold auth_deleteUser.
    destruct (delete_fault faults) as [e|].
    + cbn [response status db_after auth_users app_users]. intros _. split.
      * right. exists email. split; [reflexivity|]. split; [reflexivity|].
        right. split; [reflexivity | discriminate].
      * now apply Hrows.
    + rewrite deleteUser_created.
      cbn [response status db_after auth_users app_users]. intros _. split.
      * now left.
      * now apply Hrows.
  - cbn [response status]. intros H. now elim H.
Qed.

(** A body whose [assignedVehicles] is an array: the run throws after the
    credential was created, and the credential stays. *)
Lemma failed_create_removes_no_credential_witness :
  status (response (post_create_user fleet_db 1 no_faults array_vehicles_raw)) = 500 /\
  (auth_users (db_after (post_create_user fleet_db 1 no_faults array_vehicles_raw))
   = auth_users fleet_db \/
   auth_users (db_after (post_create_user fleet_db 1 no_faults array_vehicles_raw))
   = auth_users fleet_db ++ [mkAuthUser 3 "kebede@fleet.et" "4321"]).
Proof.
  split; [reflexivity|].
  destruct (failed_create_removes_no_credential fleet_db 1 no_faults array_vehicles_raw)
    as [[Hsame | [email [Hemail [Hstays _]]]] _].
  - discriminate.
  - now left.
  - right. injection Hemail as <-. exact Hstays.
Defined.

(** X24: a run answered 200 adds exactly one credential and one directory
    row, both last in their tables and under the same fresh identifier: the
    credential holds the lowercased e-mail and the passcode, the row the
    same e-mail, role user, the parsed vehicles and the caller as creator.
    The e-mail was carried by no earlier row, and it signs in with the
    passcode. *)
Theorem successful_create_pairs_credential_and_account :
  forall (db : Db) (caller : uuid) (fault : option string) (req : CreateUserRequest),
    status (response (create_user db caller fault req)) = 200 ->
    auth_users (db_after (create_user db caller fault req))
    = auth_users db ++
      [mkAuthUser (fresh_id db) (Js.toLowerCase (req_email req)) (req_password req)] /\
    app_users (db_after (create_user db caller fault req))
    = app_users db ++
      [mkAppUser (fresh_id db) (Js.toLowerCase (req_email req)) (req_fullName req) user
                 (vehiclesArray (req_assignedVehicles req)) (Some caller)] /\
    (forall a, In a (auth_users db) -> auth_id a <> fresh_id db) /\
    (forall u, In u (app_users db) ->
               id u <> fresh_id db /\ email u <> Js.toLowerCase (req_email req)) /\
    signInWithPassword (db_after (create_user db caller fault req))
                       (Js.toLowerCase (req_email req)) (req_password req) = true.
Proof.
  intros db caller fault req Hok.
  destruct (create_user_success db caller fault req Hok) as [_ [Hnone Hdb]].
  rewrite Hdb. cbn [auth_users app_users].
  split; [reflexivity|]. split; [reflexivity|]. split; [|split].
  - intros a Ha. apply fresh_id_auth in Ha. lia.
  - intros u Hu. split; [apply fresh_id_app in Hu; lia | now apply Hnone].
  - unfold signInWithPassword. cbn [auth_users]. rewrite existsb_app.
    cbn [existsb auth_email auth_password]. rewrite !String.eqb_refl. cbn.
    apply orb_true_r.
Qed.

Lemma successful_create_pairs_credential_and_account_witness :
  signInWithPassword (db_after (create_user fleet_db 1 None kebede_request))
                     "kebede@fleet.et" "4321" = true.
Proof.
  apply (successful_create_pairs_credential_and_account fleet_db 1 None kebede_request).
  reflexivity.
Defined.

(** X25: the trigger keeps the e-mails of the directory unique: it adds a
    row only for an e-mail no row carries, afterwards some row carries the
    e-mail of the new identity, and running it again adds nothing. *)
Theorem handle_new_user_keeps_emails_unique :
  forall (new : AuthUser) (rows : list AppUser),
    NoDup (map email rows) ->
    NoDup (map email (handle_new_user new rows)) /\
    (exists u, In u (handle_new_user new rows) /\ email u = auth_email new) /\
    handle_new_user new (handle_new_user new rows) = handle_new_user new rows.
Proof.
  intros new rows Hnd. unfold handle_new_user at 1 2 4.
  destruct (existsb (fun u => String.eqb (email u) (auth_email new)) rows) eqn:E.
  - split; [exact Hnd|]. split.
    + apply existsb_exists in E. destruct E as [u [Hu He]].
      exists u. split; [exact Hu | now apply String.eqb_eq in He].
    + unfold handle_new_user. now rewrite E.
  - split; [|split].
    + rewrite map_app. cbn [map email].
      apply NoDup_app; [exact Hnd | constructor; [intros [] | constructor] |].
      intros e He [<-|[]]. apply in_map_iff in He. destruct He as [u [He Hu]].
      apply Bool.not_true_iff_false in E. apply E. apply existsb_exists.
      exists u. split; [exact Hu | now apply String.eqb_eq].
    + eexists. split; [apply in_or_app; right; left; reflexivity | reflexivity].
    + unfold handle_new_user. rewrite existsb_app. cbn [existsb email].
      rewrite String.eqb_refl. cbn [orb]. rewrite orb_true_r. now rewrite E.
Qed.

Lemma handle_new_user_keeps_emails_unique_witness :
  NoDup (map email (handle_new_user (mkAuthUser 3 "kebede@fleet.et" "4321")
                                    (app_users fleet_db))).
Proof.
  apply (handle_new_user_keeps_emails_unique (mkAuthUser 3 "kebede@fleet.et" "4321")
           (app_users fleet_db)).
  repeat constructor; simpl; intuition discriminate.
Defined.

Lemma substring_all (s : string) : String.substring 0 (String.length s) s = s.
Proof. induction s as [|c r IH]; cbn; [reflexivity | now rewrite IH]. Qed.

(** X26: the client sends the access token as [Bearer <token>] and the
    handler's [replace] gives the token back, whatever the token. *)
Theorem bearer_token_round_trip :
  forall token : string,
    AdminEndpoint.replace_first "Bearer " "" ("Bearer " ++ token) = token.
Proof.
  intros token. cbn. rewrite Nat.sub_0_r.
  assert (Hp : String.prefix "" token = true) by (destruct token; reflexivity).
  rewrite Hp. apply substring_all.
Qed.

End CreateFacts.
